(** * Multi-template matching: candidate collection and non-maxima suppression

    Shallow embedding of [local_mmt.py].

    Conventions of the embedding.
    - Python integers are [Z]; pixel coordinates, widths and heights are [Z].
    - A Python float is the rational number [Q] it denotes: scores and
      thresholds are such numbers, and so is the value of an intersection
      over union.  Python's [int / int] is the double nearest to the exact
      quotient; [truediv] computes it.
    - A call that raises is a [Raise e] outcome of type [result].
    - numpy arrays keep the one piece of shape information the code depends
      on: whether the array has one axis or two (type [ndarray]).
    - The collaborators that live outside the file (OpenCV, scipy, skimage
      and numpy's [argsort]) are fields of a record [External]. *)

From Stdlib Require Import ZArith QArith Qminmax List Bool Lia Permutation Sorted.
From Stdlib Require String.
From Equations Require Import Equations.
Import ListNotations.
Import String.StringSyntax.
Local Open Scope string_scope.

Local Open Scope Z_scope.

(** ** Geometry utilities *)

(** A bounding box is the Python list [[x, y, width, height]]. *)
Definition BBox : Type := (Z * Z * Z * Z)%type.
Definition Point : Type := (Z * Z)%type.

(** [Point_in_Rectangle(Point, Rectangle)] *)
Definition Point_in_Rectangle (P : Point) (Rectangle : BBox) : bool :=
  let '(Px, Py) := P in
  let '(Rx, Ry, w, h) := Rectangle in
  (Rx <=? Px) && (Px <=? Rx + w - 1) && (Ry <=? Py) && (Py <=? Ry + h - 1).

(** The two inclusion flags of [computeIoU]. *)
Definition BBox_in_BBox (BBoxA BBoxB : BBox) : bool :=
  let '(XleftA, YtopA, WidthA, HeightA) := BBoxA in
  let XrightA := XleftA + WidthA - 1 in
  let YbotA := YtopA + HeightA - 1 in
  Point_in_Rectangle (XleftA, YtopA) BBoxB
  && Point_in_Rectangle (XleftA, YbotA) BBoxB
  && Point_in_Rectangle (XrightA, YtopA) BBoxB
  && Point_in_Rectangle (XrightA, YbotA) BBoxB.

(** Area of the intersection rectangle and of the union, as the last branch
    of [computeIoU] computes them. *)
Definition Inter_area (BBox1 BBox2 : BBox) : Z :=
  let '(Xleft1, Ytop1, Width1, Height1) := BBox1 in
  let '(Xleft2, Ytop2, Width2, Height2) := BBox2 in
  let Xright1 := Xleft1 + Width1 - 1 in
  let Ybot1 := Ytop1 + Height1 - 1 in
  let Xright2 := Xleft2 + Width2 - 1 in
  let Ybot2 := Ytop2 + Height2 - 1 in
  let Xleft := Z.max Xleft1 Xleft2 in
  let Ytop := Z.max Ytop1 Ytop2 in
  let Xright := Z.min Xright1 Xright2 in
  let Ybot := Z.min Ybot1 Ybot2 in
  (Xright - Xleft + 1) * (Ybot - Ytop + 1).

Definition Union_area (BBox1 BBox2 : BBox) : Z :=
  let '(_, _, Width1, Height1) := BBox1 in
  let '(_, _, Width2, Height2) := BBox2 in
  Width1 * Height1 + Width2 * Height2 - Inter_area BBox1 BBox2.

(** The test [Xright < Xleft or Ybot < Ytop]. *)
Definition no_intersection (BBox1 BBox2 : BBox) : bool :=
  let '(Xleft1, Ytop1, Width1, Height1) := BBox1 in
  let '(Xleft2, Ytop2, Width2, Height2) := BBox2 in
  let Xright1 := Xleft1 + Width1 - 1 in
  let Ybot1 := Ytop1 + Height1 - 1 in
  let Xright2 := Xleft2 + Width2 - 1 in
  let Ybot2 := Ytop2 + Height2 - 1 in
  let Xleft := Z.max Xleft1 Xleft2 in
  let Ytop := Z.max Ytop1 Ytop2 in
  let Xright := Z.min Xright1 Xright2 in
  let Ybot := Z.min Ybot1 Ybot2 in
  (Xright <? Xleft) || (Ybot <? Ytop).

(** [a / b] on Python integers with [0 <= a <= b] and [0 < b]: the double
    nearest to the exact quotient, ties going to the even significand.  The
    quotient is scaled by [2 ^ k] so that its integer part has 53 bits ([k]
    stops at 1074, where the subnormal doubles end), rounded to an integer
    [m'], and the double is [m' / 2 ^ k]. *)
Definition truediv (a b : Z) : Q :=
  let d := Z.log2 b - Z.log2 a in
  let s := if b <=? a * 2 ^ d then d else d + 1 in
  let k := Z.min (s + 52) 1074 in
  let n := a * 2 ^ k in
  let m := n / b in
  let r := n mod b in
  let m' := if (b <? 2 * r) || ((b =? 2 * r) && Z.odd m) then m + 1 else m in
  (inject_Z m' / inject_Z (2 ^ k))%Q.

(** [computeIoU(BBox1, BBox2)].  The division of the last branch is never
    by zero (lemma [Union_area_pos] below), so the function is total. *)
Definition computeIoU (BBox1 BBox2 : BBox) : Q :=
  let BBox1_in_BBox2 := BBox_in_BBox BBox1 BBox2 in
  let BBox2_in_BBox1 := BBox_in_BBox BBox2 BBox1 in
  if BBox1_in_BBox2 || BBox2_in_BBox1 then 1%Q
  else if no_intersection BBox1 BBox2 then 0%Q
  else truediv (Inter_area BBox1 BBox2) (Union_area BBox1 BBox2).

(** ** Outcomes of a call *)

(** The exceptions the file can raise, and OpenCV's own ([cv2_error]). *)
Inductive exn : Type :=
| TypeError | ValueError | IndexError | UnboundLocalError | cv2_error.

Inductive result (A : Type) : Type :=
| Ok (a : A)
| Raise (e : exn).
Arguments Ok {A} a.
Arguments Raise {A} e.

Definition rbind {A B : Type} (r : result A) (f : A -> result B) : result B :=
  match r with
  | Ok a => f a
  | Raise e => Raise e
  end.

Notation "x <- r ;; k" := (rbind r (fun x => k))
  (at level 61, r at next level, right associativity).

Fixpoint mapM {A B : Type} (f : A -> result B) (l : list A) : result (list B) :=
  match l with
  | [] => Ok []
  | a :: tl => b <- f a ;; bs <- mapM f tl ;; Ok (b :: bs)
  end.

(** ** Data model *)

(** One row of the table of hits: [[templateName, [x, y, width, height], coeff]]. *)
Record Hit : Type := mkHit {
  templateName : String.string;
  bbox : BBox;
  coeff : Q
}.

(** A numpy array as this file uses it.  [np.asarray] of a non-empty list of
    hits is an object array of shape (n, 3), one row per hit; [np.asarray([])]
    has the single axis of shape (0,), and so has the array of boxes that
    [NMS] builds and returns. *)
Inductive ndarray : Type :=
| Array1D (items : list BBox)
| Array2D (rows : list Hit).

Definition np_asarray (listHit : list Hit) : ndarray :=
  match listHit with
  | [] => Array1D []
  | _ :: _ => Array2D listHit
  end.

(** Values that [N_object] takes: [float("inf")], a Python int, or another
    float. *)
Inductive number : Type :=
| Inf
| Int (n : Z)
| Float (q : Q).

(** [k < N_object] for an integer [k]. *)
Definition Z_lt_number (k : Z) (N : number) : bool :=
  match N with
  | Inf => true
  | Int n => k <? n
  | Float q => negb (Qle_bool q (inject_Z k))
  end.

(** [N_object == 1] *)
Definition number_eqb_1 (N : number) : bool :=
  match N with
  | Inf => false
  | Int n => n =? 1
  | Float q => Qeq_bool q 1
  end.

(** [a > b] *)
Definition Qgtb (a b : Q) : bool := negb (Qle_bool a b).

Definition BBox_eqb (a b : BBox) : bool :=
  let '(x1, y1, w1, h1) := a in
  let '(x2, y2, w2, h2) := b in
  (x1 =? x2) && (y1 =? y2) && (w1 =? w2) && (h1 =? h2).

(** *** Indexing *)

(** A Python slice bound, clipped to the length. *)
Definition clip_index (len i : Z) : Z :=
  if i <? 0 then Z.max 0 (i + len) else Z.min i len.

(** [l[start:stop]] *)
Definition py_slice {A : Type} (start stop : Z) (l : list A) : list A :=
  let len := Z.of_nat (length l) in
  let s := clip_index len start in
  let e := clip_index len stop in
  firstn (Z.to_nat (e - s)) (skipn (Z.to_nat s) l).

(** [l[i]], with Python's negative indices. *)
Definition py_index {A : Type} (l : list A) (i : Z) : result A :=
  let len := Z.of_nat (length l) in
  let j := if i <? 0 then i + len else i in
  if (0 <=? j) && (j <? len) then
    match nth_error l (Z.to_nat j) with
    | Some a => Ok a
    | None => Raise IndexError
    end
  else Raise IndexError.

(** [table[:,2]]: the column of scores; an array with one axis has no
    second index. *)
Definition column_2 (table : ndarray) : result (list Q) :=
  match table with
  | Array2D rows => Ok (map coeff rows)
  | Array1D _ => Raise IndexError
  end.

(** [table[start:stop,1]]: the boxes of a range of rows. *)
Definition slice_column_1 (start stop : Z) (table : ndarray) : result (list BBox) :=
  match table with
  | Array2D rows => Ok (map bbox (py_slice start stop rows))
  | Array1D _ => Raise IndexError
  end.

Definition len (table : ndarray) : Z :=
  match table with
  | Array2D rows => Z.of_nat (length rows)
  | Array1D items => Z.of_nat (length items)
  end.

Fixpoint mask_select {A : Type} (l : list A) (mask : list bool) : list A :=
  match l, mask with
  | a :: l', m :: mask' => if m then a :: mask_select l' mask' else mask_select l' mask'
  | _, _ => []
  end.

(** [table[mask]] for a boolean mask with one entry per row. *)
Definition bool_index (table : ndarray) (mask : list bool) : ndarray :=
  match table with
  | Array2D rows => Array2D (mask_select rows mask)
  | Array1D items => Array1D (mask_select items mask)
  end.

Definition nth_result {A : Type} (l : list A) (i : nat) : result A :=
  match nth_error l i with
  | Some a => Ok a
  | None => Raise IndexError
  end.

(** [table[indices]] for an array of row indices. *)
Definition fancy_index (table : ndarray) (indices : list nat) : result ndarray :=
  match table with
  | Array2D rows => rows' <- mapM (nth_result rows) indices ;; Ok (Array2D rows')
  | Array1D items => items' <- mapM (nth_result items) indices ;; Ok (Array1D items')
  end.

(** ** Images and score maps *)

Inductive dtype : Type := uint8 | uint16 | float32 | float64.

Definition dtype_eqb (a b : dtype) : bool :=
  match a, b with
  | uint8, uint8 | uint16, uint16 | float32, float32 | float64, float64 => true
  | _, _ => false
  end.

(** An image or a template: rows of pixels, a pixel being the list of its
    channel values. *)
Record Image : Type := mkImage {
  img_dtype : dtype;
  pixels : list (list (list Q))
}.

(** [image.shape[0:2]] *)
Definition shape_2 (image : Image) : Z * Z :=
  (Z.of_nat (length (pixels image)),
   match pixels image with
   | [] => 0
   | row :: _ => Z.of_nat (length row)
   end).

Definition np_float32 (image : Image) : Image :=
  mkImage float32 (pixels image).

(** [image[y0:y1, x0:x1]] *)
Definition crop (image : Image) (y0 y1 x0 x1 : Z) : Image :=
  mkImage (img_dtype image) (map (py_slice x0 x1) (py_slice y0 y1 (pixels image))).

(** The correlation map, indexed [row][col]. *)
Definition ScoreMap : Type := list (list Q).

Definition map_shape (corrMap : ScoreMap) : nat * nat :=
  (length corrMap, match corrMap with [] => 0%nat | row :: _ => length row end).

(** [corrMap[tuple(peak)]] *)
Definition map_at (corrMap : ScoreMap) (peak : Z * Z) : result Q :=
  row <- py_index corrMap (fst peak) ;; py_index row (snd peak).

(** [-corrMap] *)
Definition map_neg (corrMap : ScoreMap) : ScoreMap := map (map Qopp) corrMap.

(** ** The collaborators outside the file *)

Record External : Type := mkExternal {
  (** [cv2.matchTemplate(a, b, method)]; it may raise. *)
  cv2_matchTemplate : Image -> Image -> Z -> result ScoreMap;
  (** [cv2.minMaxLoc(corrMap)]: minVal, maxVal, minLoc, maxLoc, the
      locations being (x, y). *)
  cv2_minMaxLoc : ScoreMap -> Q * Q * (Z * Z) * (Z * Z);
  (** [find_peaks(row, height=h)[0]]: the indices of the peaks. *)
  find_peaks : list Q -> Q -> list Z;
  (** [peak_local_max(corrMap, threshold_abs=t, exclude_border=False).tolist()] *)
  peak_local_max : ScoreMap -> Q -> list (Z * Z);
  (** [scores.argsort()] *)
  argsort : list Q -> list nat
}.

(** What the file relies on from [argsort]: the indices it returns are a
    rearrangement of 0 .. n-1 along which the scores do not decrease.  The
    order of equal scores is left open, as numpy's default sort leaves it. *)
Definition argsort_spec (argsort : list Q -> list nat) : Prop :=
  forall scores : list Q,
    Permutation (argsort scores) (seq 0 (length scores)) /\
    StronglySorted (fun i j => (nth i scores 0 <= nth j scores 0)%Q) (argsort scores).

(** ** Non-maxima suppression *)

(** The inner [for hit_dico in outTable] loop.  [ToAppend] is a local
    variable of [NMS]: each pass of the loop body sets it, and a loop over an
    empty [outTable] leaves it as it was. *)
Fixpoint overlap_scan (maxOverlap : Q) (test_bbox : BBox) (outTable : list BBox)
    (ToAppend : option bool) : option bool :=
  match outTable with
  | [] => ToAppend
  | bbox2 :: outTable' =>
      let IoU := computeIoU test_bbox bbox2 in
      if Qgtb IoU maxOverlap then Some false
      else overlap_scan maxOverlap test_bbox outTable' (Some true)
  end.

(** [np.delete(restTable, np.where(restTable == testHit_dico))]: the
    comparison is elementwise, so every entry equal to the tested box goes. *)
Definition delete_equal (test_bbox : BBox) (restTable : list BBox) : list BBox :=
  filter (fun b => negb (BBox_eqb b test_bbox)) restTable.

Lemma BBox_eqb_refl (b : BBox) : BBox_eqb b b = true.
Proof.
  destruct b as [[[x y] w] h]. unfold BBox_eqb. rewrite !Z.eqb_refl. reflexivity.
Qed.

Lemma delete_equal_head (t : BBox) (tl : list BBox) :
  (length (delete_equal t (t :: tl)) < length (t :: tl))%nat.
Proof.
  unfold delete_equal. cbn [filter]. rewrite BBox_eqb_refl. cbn [negb length].
  pose proof (filter_length_le (fun b => negb (BBox_eqb b t)) tl). lia.
Qed.

(** The [while len(outTable) < N_object and len(restTable) > 0] loop. *)
Equations NMS_loop (N_object : number) (maxOverlap : Q)
    (outTable restTable : list BBox) (ToAppend : option bool)
    : result (list BBox) by wf (length restTable) lt :=
NMS_loop N_object maxOverlap outTable [] ToAppend := Ok outTable;
NMS_loop N_object maxOverlap outTable (test_bbox :: rest') ToAppend :=
  if Z_lt_number (Z.of_nat (length outTable)) N_object then
    match overlap_scan maxOverlap test_bbox outTable ToAppend with
    | None => Raise UnboundLocalError
    | Some true =>
        NMS_loop N_object maxOverlap (outTable ++ [test_bbox])
                 (delete_equal test_bbox (test_bbox :: rest')) (Some true)
    | Some false =>
        NMS_loop N_object maxOverlap outTable
                 (delete_equal test_bbox (test_bbox :: rest')) (Some false)
    end
  else Ok outTable.
Next Obligation. apply delete_equal_head. Qed.
Next Obligation. apply delete_equal_head. Qed.

(** The threshold step of [NMS]. *)
Definition NMS_threshold (tableHit : ndarray) (scoreThreshold : option Q)
    (sortAscending : bool) : result ndarray :=
  match scoreThreshold with
  | None => Ok tableHit
  | Some thr =>
      if negb sortAscending then
        scores <- column_2 tableHit ;;
        Ok (bool_index tableHit (map (fun s => Qle_bool thr s) scores))
      else
        scores <- column_2 tableHit ;;
        Ok (bool_index tableHit (map (fun s => Qle_bool s thr) scores))
  end.

(** The sorting step of [NMS]. *)
Definition NMS_sort (argsort : list Q -> list nat) (threshTable : ndarray)
    (sortAscending : bool) : result ndarray :=
  if sortAscending then
    scores <- column_2 threshTable ;;
    fancy_index threshTable (argsort scores)
  else
    scores <- column_2 threshTable ;;
    fancy_index threshTable (rev (argsort scores)).

(** [NMS(tableHit, scoreThreshold, sortAscending, N_object, maxOverlap)] *)
Definition NMS (argsort : list Q -> list nat) (tableHit : ndarray)
    (scoreThreshold : option Q) (sortAscending : bool) (N_object : number)
    (maxOverlap : Q) : result ndarray :=
  threshTable <- NMS_threshold tableHit scoreThreshold sortAscending ;;
  threshTable <- NMS_sort argsort threshTable sortAscending ;;
  outTable <- slice_column_1 0 1 threshTable ;;
  restTable <- slice_column_1 1 (len threshTable) threshTable ;;
  outTable <- NMS_loop N_object maxOverlap outTable restTable None ;;
  Ok (Array1D outTable).

(** ** Candidate collection *)

(** Calls to the similarity function are recorded, in order. *)
Inductive event : Type :=
| Call_matchTemplate (a b : Image) (method : Z).

(** A computation that records calls and may raise. *)
Definition M (A : Type) : Type := (list event * result A)%type.

Definition mret {A : Type} (a : A) : M A := ([], Ok a).
Definition mraise {A : Type} (e : exn) : M A := ([], Raise e).
Definition mlift {A : Type} (r : result A) : M A := ([], r).
Definition mbind {A B : Type} (m : M A) (f : A -> M B) : M B :=
  match m with
  | (log, Ok a) => let (log', r) := f a in (log ++ log', r)
  | (log, Raise e) => (log, Raise e)
  end.

Notation "x <~ m ;; k" := (mbind m (fun x => k))
  (at level 61, m at next level, right associativity).

Section Pipeline.

Variable ext : External.

(** [_findLocalMax_(corrMap, score_threshold)] *)
Definition _findLocalMax_ (corrMap : ScoreMap) (score_threshold : Q) : list (Z * Z) :=
  let '(rows, cols) := map_shape corrMap in
  if (rows =? 1)%nat && (cols =? 1)%nat then
    if Qle_bool score_threshold (hd 0%Q (hd [] corrMap)) then [(0, 0)] else []
  else if (rows =? 1)%nat then
    map (fun i => (0, i)) (find_peaks ext (hd [] corrMap) score_threshold)
  else if (cols =? 1)%nat then
    map (fun i => (i, 0)) (find_peaks ext (map (hd 0%Q) corrMap) score_threshold)
  else peak_local_max ext corrMap score_threshold.

(** [_findLocalMin_(corrMap, score_threshold)] *)
Definition _findLocalMin_ (corrMap : ScoreMap) (score_threshold : Q) : list (Z * Z) :=
  _findLocalMax_ (map_neg corrMap) (- score_threshold)%Q.

(** [computeScoreMap(template, image, method)] *)
Definition computeScoreMap (template image : Image) (method : Z) : M ScoreMap :=
  if dtype_eqb (img_dtype template) float64 || dtype_eqb (img_dtype image) float64
  then mraise ValueError
  else
    let '(template, image) :=
      if negb (dtype_eqb (img_dtype template) uint8 && dtype_eqb (img_dtype image) uint8)
      then (np_float32 template, np_float32 image)
      else (template, image) in
    ([Call_matchTemplate template image method],
     cv2_matchTemplate ext template image method).

(** [method in (3,5)] *)
Definition in_3_5 (method : Z) : bool := (method =? 3) || (method =? 5).

(** The part of the loop body of [findMatches] that assigns [Peaks].  No
    branch assigns it for a method other than 1, 3 and 5: the variable keeps
    the value it had ([None] when it was never bound). *)
Definition find_Peaks (corrMap : ScoreMap) (method : Z) (N_object : number)
    (score_threshold : Q) (Peaks : option (list (Z * Z))) : option (list (Z * Z)) :=
  if number_eqb_1 N_object then
    let '(minVal, maxVal, minLoc, maxLoc) := cv2_minMaxLoc ext corrMap in
    if method =? 1 then Some [(snd minLoc, fst minLoc)]
    else if in_3_5 method then Some [(snd maxLoc, fst maxLoc)]
    else Peaks
  else
    if method =? 1 then Some (_findLocalMin_ corrMap score_threshold)
    else if in_3_5 method then Some (_findLocalMax_ corrMap score_threshold)
    else Peaks.

(** The [for peak in Peaks] loop: one hit per peak, appended to [listHit]. *)
Fixpoint append_hits (name : String.string) (corrMap : ScoreMap)
    (xOffset yOffset width height : Z) (Peaks : list (Z * Z)) (listHit : list Hit)
    : result (list Hit) :=
  match Peaks with
  | [] => Ok listHit
  | peak :: Peaks' =>
      c <- map_at corrMap peak ;;
      let newHit := mkHit name (snd peak + xOffset, fst peak + yOffset, width, height) c in
      append_hits name corrMap xOffset yOffset width height Peaks' (listHit ++ [newHit])
  end.

(** The [for templateName, template in listTemplates] loop; [Peaks] and
    [listHit] are the local variables it carries from one pass to the next. *)
Fixpoint findMatches_loop (listTemplates : list (String.string * Image)) (image : Image)
    (method : Z) (N_object : number) (score_threshold : Q) (xOffset yOffset : Z)
    (Peaks : option (list (Z * Z))) (listHit : list Hit) : M (list Hit) :=
  match listTemplates with
  | [] => mret listHit
  | (name, template) :: listTemplates' =>
      corrMap <~ computeScoreMap template image method ;;
      let Peaks := find_Peaks corrMap method N_object score_threshold Peaks in
      let '(height, width) := shape_2 template in
      match Peaks with
      | None => mraise UnboundLocalError
      | Some peaks =>
          listHit <~ mlift (append_hits name corrMap xOffset yOffset width height
                                        peaks listHit) ;;
          findMatches_loop listTemplates' image method N_object score_threshold
                           xOffset yOffset Peaks listHit
      end
  end.

(** The two checks on [N_object] that open [findMatches]. *)
Definition check_N_object (N_object : number) : result unit :=
  match N_object with
  | Inf => Ok tt
  | Float _ => Raise TypeError
  | Int n => if n <? 1 then Raise ValueError else Ok tt
  end.

(** [findMatches(listTemplates, image, method, N_object, score_threshold, searchBox)] *)
Definition findMatches (listTemplates : list (String.string * Image)) (image : Image)
    (method : Z) (N_object : number) (score_threshold : Q)
    (searchBox : option (Z * Z * Z * Z)) : M ndarray :=
  _ <~ mlift (check_N_object N_object) ;;
  let '(xOffset, yOffset, image) :=
    match searchBox with
    | Some (xOffset, yOffset, searchWidth, searchHeight) =>
        (xOffset, yOffset,
         crop image yOffset (yOffset + searchHeight) xOffset (xOffset + searchWidth))
    | None => (0, 0, image)
    end in
  listHit <~ findMatches_loop listTemplates image method N_object score_threshold
                              xOffset yOffset None [] ;;
  mret (np_asarray listHit).

(** [matchTemplates(listTemplates, image, method, N_object, score_threshold,
    maxOverlap, searchBox)].  [bestHits] is bound for the methods 1, 3 and 5
    only. *)
Definition matchTemplates (listTemplates : list (String.string * Image)) (image : Image)
    (method : Z) (N_object : number) (score_threshold : Q) (maxOverlap : Q)
    (searchBox : option (Z * Z * Z * Z)) : M ndarray :=
  if Qgtb 0 maxOverlap || Qgtb maxOverlap 1 then mraise ValueError
  else
    tableHit <~ findMatches listTemplates image method N_object score_threshold searchBox ;;
    if method =? 1 then
      mlift (NMS (argsort ext) tableHit None true N_object maxOverlap)
    else if in_3_5 method then
      mlift (NMS (argsort ext) tableHit None false N_object maxOverlap)
    else mraise UnboundLocalError.

End Pipeline.

(** ** A concrete set of collaborators *)

(** numpy's default sort falls back to insertion sort on short arrays (up to
    16 entries): each index moves left past the entries of strictly larger
    score.  [insertion_argsort] is that sort. *)
Fixpoint insert_index (scores : list Q) (i : nat) (sorted : list nat) : list nat :=
  match sorted with
  | [] => [i]
  | j :: sorted' =>
      if Qle_bool (nth j scores 0%Q) (nth i scores 0%Q)
      then j :: insert_index scores i sorted'
      else i :: j :: sorted'
  end.

Definition insertion_argsort (scores : list Q) : list nat :=
  fold_left (fun sorted i => insert_index scores i sorted)
            (seq 0 (length scores)) [].

(** A similarity function with OpenCV's conventions on sizes: the smaller
    array slides over the larger one, and two arrays neither of which fits in
    the other are refused.  Every offset scores 1. *)
Definition sample_matchTemplate (a b : Image) (method : Z) : result ScoreMap :=
  let '(ha, wa) := shape_2 a in
  let '(hb, wb) := shape_2 b in
  if ((ha <=? hb) && (wa <=? wb)) || ((hb <=? ha) && (wb <=? wa))
  then Ok (repeat (repeat 1%Q (Z.to_nat (Z.abs (wa - wb) + 1)))
                  (Z.to_nat (Z.abs (ha - hb) + 1)))
  else Raise cv2_error.

Definition sample_ext : External :=
  mkExternal sample_matchTemplate
             (fun corrMap => (hd 0%Q (hd [] corrMap), hd 0%Q (hd [] corrMap), (0, 0), (0, 0)))
             (fun _ _ => [])
             (fun _ _ => [(0, 0)])
             insertion_argsort.

(** An all-zero single-channel 8-bit array of a given height and width. *)
Definition blank (height width : nat) : Image :=
  mkImage uint8 (repeat (repeat [0%Q] width) height).

(** Two hits of equal score. *)
Definition hit_a : Hit := mkHit "a" (0, 0, 2, 2) (1 # 2).
Definition hit_b : Hit := mkHit "b" (10, 10, 2, 2) (1 # 2).

(** An order of the rows is stable with respect to another when, score by
    score, the rows of that score come in the same sequence in both. *)
Definition stable_wrt (input sorted : list Hit) : Prop :=
  forall q : Q,
    filter (fun h => Qeq_bool (coeff h) q) sorted =
    filter (fun h => Qeq_bool (coeff h) q) input.

(** ** Notions used in the statements *)

(** The four corner pixels of a box, in the order [computeIoU] tests them. *)
Definition corners (b : BBox) : list Point :=
  let '(Xleft, Ytop, Width, Height) := b in
  let Xright := Xleft + Width - 1 in
  let Ybot := Ytop + Height - 1 in
  [(Xleft, Ytop); (Xleft, Ybot); (Xright, Ytop); (Xright, Ybot)].

Definition all_corners_inside (A B : BBox) : Prop :=
  forall p, In p (corners A) -> Point_in_Rectangle p B = true.

(** The decision the inner loop reaches on a non-empty [outTable]: append
    exactly when no accepted box overlaps the tested one by more than
    [maxOverlap]. *)
Definition fits (maxOverlap : Q) (test_bbox : BBox) (outTable : list BBox) : bool :=
  forallb (fun bbox2 => Qle_bool (computeIoU test_bbox bbox2) maxOverlap) outTable.

(** The expected counts the documentation allows: unbounded, or an integer
    that is at least one. *)
Definition valid_count (N : number) : Prop :=
  match N with
  | Inf => True
  | Int n => 1 <= n
  | Float _ => False
  end.

(** [k <= N_object] for a length [k]. *)
Definition at_most (k : nat) (N : number) : Prop :=
  match N with
  | Inf => True
  | Int n => Z.of_nat k <= n
  | Float q => (inject_Z (Z.of_nat k) <= q)%Q
  end.

(** The image the templates are searched in: the crop when a search box is
    given. *)
Definition search_image (image : Image) (searchBox : option (Z * Z * Z * Z)) : Image :=
  match searchBox with
  | Some (xOffset, yOffset, searchWidth, searchHeight) =>
      crop image yOffset (yOffset + searchHeight) xOffset (xOffset + searchWidth)
  | None => image
  end.

Definition search_offset (searchBox : option (Z * Z * Z * Z)) : Z * Z :=
  match searchBox with
  | Some (xOffset, yOffset, _, _) => (xOffset, yOffset)
  | None => (0, 0)
  end.

(** Whether a row survives the threshold step of [NMS]. *)
Definition passes (scoreThreshold : option Q) (sortAscending : bool) (h : Hit) : bool :=
  match scoreThreshold with
  | None => true
  | Some thr =>
      if sortAscending then Qle_bool (coeff h) thr else Qle_bool thr (coeff h)
  end.

(** [a] is ranked no later than [b] by the sorting step. *)
Definition ranks_before (sortAscending : bool) (a b : Hit) : Prop :=
  if sortAscending then (coeff a <= coeff b)%Q else (coeff b <= coeff a)%Q.

(** [l1] is [l2] with some entries left out, the others in their order. *)
Inductive subsequence {A : Type} : list A -> list A -> Prop :=
| subsequence_nil : subsequence [] []
| subsequence_skip (a : A) (l1 l2 : list A) :
    subsequence l1 l2 -> subsequence l1 (a :: l2)
| subsequence_keep (a : A) (l1 l2 : list A) :
    subsequence l1 l2 -> subsequence (a :: l1) (a :: l2).

(** The pair of arrays [computeScoreMap] hands to the similarity function. *)
Definition same_depth (template image : Image) : Image * Image :=
  if negb (dtype_eqb (img_dtype template) uint8 && dtype_eqb (img_dtype image) uint8)
  then (np_float32 template, np_float32 image)
  else (template, image).

(** The call [findMatches] makes for one template. *)
Definition call_for (image : Image) (method : Z) (entry : String.string * Image) : event :=
  let '(a, b) := same_depth (snd entry) image in Call_matchTemplate a b method.

(** A hit has the name of the template and a box of its height and width. *)
Definition hit_of_template (entry : String.string * Image) (h : Hit) : Prop :=
  templateName h = fst entry /\
  let '(_, _, width, height) := bbox h in (height, width) = shape_2 (snd entry).

(** A box has the height and width of the template. *)
Definition box_of_template (entry : String.string * Image) (b : BBox) : Prop :=
  let '(_, _, width, height) := b in (height, width) = shape_2 (snd entry).

(** A hit, and a table of hits, moved by an offset. *)
Definition shift_hit (dx dy : Z) (h : Hit) : Hit :=
  let '(x, y, width, height) := bbox h in
  mkHit (templateName h) (x + dx, y + dy, width, height) (coeff h).

Definition shift_table (dx dy : Z) (table : ndarray) : ndarray :=
  match table with
  | Array2D rows => Array2D (map (shift_hit dx dy) rows)
  | Array1D items => Array1D items
  end.

Definition result_map {A B : Type} (f : A -> B) (r : result A) : result B :=
  match r with
  | Ok a => Ok (f a)
  | Raise e => Raise e
  end.

(** Boxes as the data model wants them: width and height at least one. *)
Definition positive_size (b : BBox) : Prop :=
  let '(_, _, w, h) := b in 1 <= w /\ 1 <= h.

(** ** Geometry: proofs *)

Lemma Inter_area_comm (a b : BBox) : Inter_area a b = Inter_area b a.
Proof.
  destruct a as [[[x1 y1] w1] h1], b as [[[x2 y2] w2] h2]; unfold Inter_area.
  rewrite (Z.max_comm x1 x2), (Z.max_comm y1 y2).
  rewrite (Z.min_comm (x1 + w1 - 1)), (Z.min_comm (y1 + h1 - 1)).
  reflexivity.
Qed.

Lemma Union_area_comm (a b : BBox) : Union_area a b = Union_area b a.
Proof.
  unfold Union_area. rewrite (Inter_area_comm a b).
  destruct a as [[[x1 y1] w1] h1], b as [[[x2 y2] w2] h2]. lia.
Qed.

Lemma no_intersection_comm (a b : BBox) : no_intersection a b = no_intersection b a.
Proof.
  destruct a as [[[x1 y1] w1] h1], b as [[[x2 y2] w2] h2]; unfold no_intersection.
  rewrite (Z.max_comm x1 x2), (Z.max_comm y1 y2).
  rewrite (Z.min_comm (x1 + w1 - 1)), (Z.min_comm (y1 + h1 - 1)).
  reflexivity.
Qed.

Lemma computeIoU_comm (a b : BBox) : computeIoU a b = computeIoU b a.
Proof.
  unfold computeIoU.
  rewrite (orb_comm (BBox_in_BBox a b)), (no_intersection_comm a b).
  rewrite (Inter_area_comm a b), (Union_area_comm a b).
  reflexivity.
Qed.

(** When the union is computed at all (the boxes intersect and neither
    contains the other), the intersection has at least one pixel and fits in
    each box; this needs no assumption on the sign of widths and heights,
    because a box of non-positive width or height intersects nothing. *)
Lemma Inter_area_bounds (a b : BBox) :
  no_intersection a b = false ->
  let '(_, _, w1, h1) := a in
  let '(_, _, w2, h2) := b in
  1 <= Inter_area a b /\ Inter_area a b <= w1 * h1 /\ Inter_area a b <= w2 * h2.
Proof.
  destruct a as [[[x1 y1] w1] h1], b as [[[x2 y2] w2] h2].
  unfold no_intersection, Inter_area. intros H.
  apply orb_false_iff in H. destruct H as [Hx Hy].
  apply Z.ltb_ge in Hx. apply Z.ltb_ge in Hy.
  set (X := Z.min (x1 + w1 - 1) (x2 + w2 - 1) - Z.max x1 x2 + 1) in *.
  set (Y := Z.min (y1 + h1 - 1) (y2 + h2 - 1) - Z.max y1 y2 + 1) in *.
  assert (HX : 1 <= X /\ X <= w1 /\ X <= w2) by (subst X; lia).
  assert (HY : 1 <= Y /\ Y <= h1 /\ Y <= h2) by (subst Y; lia).
  clearbody X Y. repeat split; nia.
Qed.

Lemma Union_area_pos (a b : BBox) :
  no_intersection a b = false ->
  Inter_area a b <= Union_area a b /\ 0 < Union_area a b.
Proof.
  intros H. pose proof (Inter_area_bounds a b H) as Hb.
  unfold Union_area.
  destruct a as [[[x1 y1] w1] h1], b as [[[x2 y2] w2] h2].
  lia.
Qed.

(** The double nearest to a quotient between 0 and 1 lies between 0 and 1. *)
Lemma truediv_range (a b : Z) :
  0 <= a <= b -> 0 < b -> (0 <= truediv a b <= 1)%Q.
Proof.
  intros Hab Hb. unfold truediv.
  set (d := Z.log2 b - Z.log2 a).
  set (s := if b <=? a * 2 ^ d then d else d + 1).
  set (k := Z.min (s + 52) 1074).
  assert (Hd : 0 <= d) by (subst d; pose proof (Z.log2_le_mono a b); lia).
  assert (Hs : 0 <= s) by (subst s; destruct (b <=? a * 2 ^ d); lia).
  assert (Hk : 0 <= k) by (subst k; lia).
  assert (HP : 0 < 2 ^ k) by (apply Z.pow_pos_nonneg; lia).
  set (P := 2 ^ k) in *. clearbody P. clear d s k Hd Hs Hk.
  set (n := a * P).
  assert (Hn : 0 <= n <= b * P) by (subst n; nia).
  pose proof (Z.div_mod n b ltac:(lia)) as Hdm.
  pose proof (Z.mod_pos_bound n b Hb) as Hr.
  set (m := n / b) in *. set (r := n mod b) in *. clearbody m r.
  assert (Hm0 : 0 <= m) by nia.
  assert (HmP : m <= P) by nia.
  assert (Hup : (b <? 2 * r) || ((b =? 2 * r) && Z.odd m) = true -> m < P).
  { intros Hc. destruct (Z.eq_dec m P) as [->|Hne]; [|lia].
    assert (r = 0) by nia. subst r.
    apply orb_true_iff in Hc. destruct Hc as [Hc|Hc].
    - apply Z.ltb_lt in Hc. lia.
    - apply andb_true_iff in Hc. destruct Hc as [Hc _]. apply Z.eqb_eq in Hc. lia. }
  assert (HPQ : (0 < inject_Z P)%Q) by (rewrite <- (Zlt_Qlt 0); exact HP).
  destruct ((b <? 2 * r) || ((b =? 2 * r) && Z.odd m)) eqn:Hc.
  - specialize (Hup eq_refl). split.
    + apply Qle_shift_div_l; [exact HPQ|]. rewrite Qmult_0_l, <- (Zle_Qle 0). lia.
    + apply Qle_shift_div_r; [exact HPQ|]. rewrite Qmult_1_l, <- Zle_Qle. lia.
  - split.
    + apply Qle_shift_div_l; [exact HPQ|]. rewrite Qmult_0_l, <- (Zle_Qle 0). lia.
    + apply Qle_shift_div_r; [exact HPQ|]. rewrite Qmult_1_l, <- Zle_Qle. lia.
Qed.

Lemma computeIoU_range (a b : BBox) : (0 <= computeIoU a b <= 1)%Q.
Proof.
  unfold computeIoU.
  destruct (BBox_in_BBox a b || BBox_in_BBox b a).
  - split; discriminate.
  - destruct (no_intersection a b) eqn:Hn.
    + split; discriminate.
    + destruct (Union_area_pos a b Hn) as [Hle Hpos].
      pose proof (Inter_area_bounds a b Hn) as Hb.
      assert (Hi : 1 <= Inter_area a b)
        by (destruct a as [[[? ?] ?] ?], b as [[[? ?] ?] ?]; tauto).
      apply truediv_range; lia.
Qed.

(** C6: [computeIoU] is symmetric and its value lies between 0 and 1, for
    all boxes of positive width and height. *)
Theorem computeIoU_symmetric_bounded (A B : BBox) :
  positive_size A -> positive_size B ->
  computeIoU A B = computeIoU B A /\ (0 <= computeIoU A B)%Q /\ (computeIoU A B <= 1)%Q.
Proof.
  intros _ _. split; [apply computeIoU_comm|apply computeIoU_range].
Qed.

Lemma computeIoU_symmetric_bounded_witness :
  positive_size (0, 0, 4, 4) /\ positive_size (2, 2, 4, 4) /\
  computeIoU (0, 0, 4, 4) (2, 2, 4, 4) = computeIoU (2, 2, 4, 4) (0, 0, 4, 4) /\
  (0 <= computeIoU (0, 0, 4, 4)%Z (2, 2, 4, 4)%Z)%Q /\
  (computeIoU (0, 0, 4, 4)%Z (2, 2, 4, 4)%Z <= 1)%Q.
Proof.
  assert (HA : positive_size (0, 0, 4, 4)) by (simpl; lia).
  assert (HB : positive_size (2, 2, 4, 4)) by (simpl; lia).
  split; [exact HA|]. split; [exact HB|].
  exact (computeIoU_symmetric_bounded (0, 0, 4, 4) (2, 2, 4, 4) HA HB).
Defined.

Lemma all_corners_inside_flag (A B : BBox) :
  all_corners_inside A B -> BBox_in_BBox A B = true.
Proof.
  unfold all_corners_inside, BBox_in_BBox.
  destruct A as [[[x y] w] h]. cbn [corners]. intros H.
  rewrite !H; [reflexivity| | | |]; cbn [In]; auto.
Qed.

(** C7: when the four corner pixels of A lie inside B, or those of B inside
    A, [computeIoU] returns exactly 1 whatever the areas; in particular
    computeIoU((2,2,3,3),(0,0,10,10)) = 1. *)
Theorem computeIoU_containment (A B : BBox) :
  positive_size A -> positive_size B ->
  all_corners_inside A B \/ all_corners_inside B A ->
  computeIoU A B = 1%Q /\ computeIoU (2, 2, 3, 3) (0, 0, 10, 10) = 1%Q.
Proof.
  intros _ _ H. split; [|reflexivity].
  unfold computeIoU.
  destruct H as [H|H]; apply all_corners_inside_flag in H; rewrite H.
  - reflexivity.
  - rewrite orb_true_r. reflexivity.
Qed.

Lemma computeIoU_containment_witness :
  computeIoU (12, 7, 1, 2) (10, 5, 6, 4) = 1%Q /\
  computeIoU (2, 2, 3, 3) (0, 0, 10, 10) = 1%Q.
Proof.
  apply (computeIoU_containment (12, 7, 1, 2) (10, 5, 6, 4)).
  - simpl; lia.
  - simpl; lia.
  - left. intros p Hp. cbn [corners In] in Hp.
    destruct Hp as [<-|[<-|[<-|[<-|[]]]]]; reflexivity.
Defined.

(** ** Indexing: proofs *)

Lemma mask_select_map {A : Type} (f : A -> bool) (l : list A) :
  mask_select l (map f l) = filter f l.
Proof.
  induction l as [|a l IH]; cbn [map mask_select filter]; [reflexivity|].
  rewrite IH. reflexivity.
Qed.

Lemma mapM_nth_result {A : Type} (l : list A) (d : A) (indices : list nat) :
  Forall (fun i => (i < length l)%nat) indices ->
  mapM (nth_result l) indices = Ok (map (fun i => nth i l d) indices).
Proof.
  induction 1 as [|i indices Hi _ IH]; cbn [mapM map]; [reflexivity|].
  unfold nth_result at 1.
  rewrite (nth_error_nth' l d Hi). cbn [rbind].
  rewrite IH. reflexivity.
Qed.

Lemma map_nth_seq {A : Type} (l : list A) (d : A) :
  map (fun i => nth i l d) (seq 0 (length l)) = l.
Proof.
  induction l as [|a l IH]; [reflexivity|].
  cbn [length seq map nth]. f_equal.
  rewrite <- seq_shift, map_map. exact IH.
Qed.

Lemma py_slice_0_1 {A : Type} (l : list A) : py_slice 0 1 l = firstn 1 l.
Proof.
  destruct l as [|a l]; [reflexivity|].
  unfold py_slice, clip_index. cbn [length Z.ltb Z.compare].
  replace (Z.min 0 (Z.of_nat (S (length l)))) with 0 by lia.
  replace (Z.min 1 (Z.of_nat (S (length l)))) with 1 by lia.
  reflexivity.
Qed.

Lemma py_slice_1_len {A : Type} (l : list A) :
  py_slice 1 (Z.of_nat (length l)) l = skipn 1 l.
Proof.
  destruct l as [|a l]; [reflexivity|].
  unfold py_slice, clip_index.
  replace (1 <? 0) with false by reflexivity.
  replace (Z.of_nat (length (a :: l)) <? 0) with false by (symmetry; apply Z.ltb_ge; lia).
  rewrite Z.min_id.
  replace (Z.min 1 (Z.of_nat (length (a :: l)))) with 1 by (cbn [length]; lia).
  replace (Z.to_nat (Z.of_nat (length (a :: l)) - 1)) with (length l) by (cbn [length]; lia).
  cbn [Z.to_nat Pos.to_nat Pos.iter_op Nat.add skipn].
  apply firstn_all.
Qed.

(** ** The threshold and sorting steps: proofs *)

Lemma NMS_threshold_rows (rows : list Hit) (thr : Q) (sortAscending : bool) :
  NMS_threshold (Array2D rows) (Some thr) sortAscending =
  Ok (Array2D (filter (fun h => if sortAscending then Qle_bool (coeff h) thr
                                else Qle_bool thr (coeff h)) rows)).
Proof.
  unfold NMS_threshold.
  destruct sortAscending; cbn [negb column_2 rbind bool_index];
    rewrite map_map, mask_select_map; reflexivity.
Qed.

Lemma NMS_threshold_total (rows : list Hit) (thr : option Q) (sortAscending : bool) :
  exists kept, NMS_threshold (Array2D rows) thr sortAscending = Ok (Array2D kept)
               /\ incl kept rows /\ (length kept <= length rows)%nat.
Proof.
  destruct thr as [thr|].
  - rewrite NMS_threshold_rows. eexists. split; [reflexivity|]. split.
    + intros h Hh. apply filter_In in Hh. tauto.
    + apply filter_length_le.
  - exists rows. split; [reflexivity|]. split; [apply incl_refl|lia].
Qed.

Section Sorting.

Variable argsort : list Q -> list nat.
Hypothesis argsort_ok : argsort_spec argsort.

Lemma argsort_in_range (scores : list Q) :
  Forall (fun i => (i < length scores)%nat) (argsort scores).
Proof.
  apply Forall_forall. intros i Hi.
  destruct (argsort_ok scores) as [Hperm _].
  apply (Permutation_in _ Hperm) in Hi. apply in_seq in Hi. lia.
Qed.

Lemma NMS_sort_rows (rows : list Hit) (sortAscending : bool) :
  NMS_sort argsort (Array2D rows) sortAscending =
  Ok (Array2D (let up := map (fun i => nth i rows hit_a) (argsort (map coeff rows)) in
               if sortAscending then up else rev up)).
Proof.
  unfold NMS_sort.
  pose proof (argsort_in_range (map coeff rows)) as Hr. rewrite length_map in Hr.
  destruct sortAscending; cbn [column_2 rbind fancy_index].
  - rewrite (mapM_nth_result rows hit_a _ Hr). reflexivity.
  - rewrite (mapM_nth_result rows hit_a (rev (argsort (map coeff rows)))).
    + cbn [rbind]. rewrite map_rev. reflexivity.
    + apply Forall_rev. exact Hr.
Qed.

Lemma sorted_rows_perm (rows : list Hit) :
  Permutation (map (fun i => nth i rows hit_a) (argsort (map coeff rows))) rows.
Proof.
  destruct (argsort_ok (map coeff rows)) as [Hperm _].
  rewrite length_map in Hperm.
  rewrite <- (map_nth_seq rows hit_a) at 2.
  apply Permutation_map. exact Hperm.
Qed.

Lemma NMS_sort_total (rows : list Hit) (sortAscending : bool) :
  exists sorted, NMS_sort argsort (Array2D rows) sortAscending = Ok (Array2D sorted)
                 /\ Permutation sorted rows.
Proof.
  rewrite NMS_sort_rows. eexists. split; [reflexivity|].
  cbv zeta. destruct sortAscending.
  - apply sorted_rows_perm.
  - rewrite <- Permutation_rev. apply sorted_rows_perm.
Qed.

End Sorting.

(** ** The selection loop: proofs *)

Lemma BBox_eqb_eq (a b : BBox) : BBox_eqb a b = true <-> a = b.
Proof.
  destruct a as [[[x1 y1] w1] h1], b as [[[x2 y2] w2] h2]. unfold BBox_eqb.
  rewrite !andb_true_iff, !Z.eqb_eq. split.
  - intros [[[-> ->] ->] ->]. reflexivity.
  - intros H. injection H as -> -> -> ->. auto.
Qed.

Lemma delete_equal_In (t b : BBox) (rest : list BBox) :
  In b (delete_equal t rest) <-> In b rest /\ b <> t.
Proof.
  unfold delete_equal. rewrite filter_In, negb_true_iff.
  rewrite <- not_true_iff_false, BBox_eqb_eq. reflexivity.
Qed.

Lemma delete_equal_cons (t : BBox) (rest : list BBox) :
  delete_equal t (t :: rest) = delete_equal t rest.
Proof.
  unfold delete_equal. cbn [filter]. rewrite BBox_eqb_refl. reflexivity.
Qed.

Lemma delete_equal_absent (t : BBox) (rest : list BBox) :
  ~ In t rest -> delete_equal t rest = rest.
Proof.
  intros H. induction rest as [|b rest IH]; [reflexivity|].
  unfold delete_equal in *. cbn [filter].
  destruct (BBox_eqb b t) eqn:E.
  - apply BBox_eqb_eq in E. subst b. exfalso. apply H. left. reflexivity.
  - cbn [negb]. f_equal. apply IH. intros Hin. apply H. right. exact Hin.
Qed.

Lemma overlap_scan_spec (maxOverlap : Q) (t : BBox) (out : list BBox) (ToAppend : option bool) :
  overlap_scan maxOverlap t out ToAppend =
  match out with
  | [] => ToAppend
  | _ :: _ => Some (fits maxOverlap t out)
  end.
Proof.
  revert ToAppend. induction out as [|b out IH]; intros ToAppend; [reflexivity|].
  cbn [overlap_scan fits forallb]. unfold Qgtb.
  destruct (Qle_bool (computeIoU t b) maxOverlap); cbn [negb andb]; [|reflexivity].
  rewrite IH. destruct out; reflexivity.
Qed.

Lemma fits_Forall (maxOverlap : Q) (t : BBox) (out : list BBox) :
  fits maxOverlap t out = true <->
  Forall (fun b => (computeIoU t b <= maxOverlap)%Q) out.
Proof.
  unfold fits. rewrite forallb_forall, Forall_forall.
  split; intros H b Hb; apply Qle_bool_iff; apply H; exact Hb.
Qed.

(** One pass of the loop body on a non-empty [outTable]. *)
Lemma NMS_loop_step (N : number) (mo : Q) (out : list BBox) (t : BBox)
    (rest : list BBox) (ToAppend : option bool) :
  out <> [] ->
  NMS_loop N mo out (t :: rest) ToAppend =
  if Z_lt_number (Z.of_nat (length out)) N then
    if fits mo t out
    then NMS_loop N mo (out ++ [t]) (delete_equal t rest) (Some true)
    else NMS_loop N mo out (delete_equal t rest) (Some false)
  else Ok out.
Proof.
  intros Hne. rewrite NMS_loop_equation_2, overlap_scan_spec, delete_equal_cons.
  destruct out as [|b out]; [contradiction|]. reflexivity.
Qed.

(** Invariant rule for the loop: a property of ([outTable], [restTable])
    that every pass preserves holds when the loop stops, and the loop does
    stop with a value. *)
Lemma NMS_loop_rule (N : number) (mo : Q) (I : list BBox -> list BBox -> Prop) :
  (forall out t rest,
      out <> [] -> I out (t :: rest) ->
      Z_lt_number (Z.of_nat (length out)) N = true ->
      if fits mo t out then I (out ++ [t]) (delete_equal t rest)
      else I out (delete_equal t rest)) ->
  forall rest out ToAppend,
    out <> [] -> I out rest ->
    exists out' rest',
      NMS_loop N mo out rest ToAppend = Ok out' /\ I out' rest' /\ out' <> [].
Proof.
  intros Hstep rest.
  induction rest as [rest IH] using (induction_ltof1 _ (@length BBox)).
  unfold ltof in IH. intros out ToAppend Hne HI.
  destruct rest as [|t rest].
  - rewrite NMS_loop_equation_1. eauto.
  - rewrite (NMS_loop_step N mo out t rest ToAppend Hne).
    destruct (Z_lt_number (Z.of_nat (length out)) N) eqn:Hlt; [|eauto].
    specialize (Hstep out t rest Hne HI Hlt).
    assert (Hlen : (length (delete_equal t rest) < length (t :: rest))%nat).
    { rewrite <- delete_equal_cons. apply delete_equal_head. }
    destruct (fits mo t out).
    + apply IH; [exact Hlen| |exact Hstep]. destruct out; discriminate.
    + apply IH; [exact Hlen|exact Hne|exact Hstep].
Qed.

(** [NMS] on a table with two axes, step by step. *)
Lemma NMS_unfold (argsort : list Q -> list nat) (rows : list Hit)
    (thr : option Q) (asc : bool) (N : number) (mo : Q) (kept sorted : list Hit) :
  NMS_threshold (Array2D rows) thr asc = Ok (Array2D kept) ->
  NMS_sort argsort (Array2D kept) asc = Ok (Array2D sorted) ->
  NMS argsort (Array2D rows) thr asc N mo =
  (out <- NMS_loop N mo (map bbox (firstn 1 sorted)) (map bbox (skipn 1 sorted)) None ;;
   Ok (Array1D out)).
Proof.
  intros Hk Hs. unfold NMS. rewrite Hk. cbn [rbind]. rewrite Hs. cbn [rbind].
  cbn [slice_column_1 len rbind].
  rewrite py_slice_0_1, py_slice_1_len. reflexivity.
Qed.

Lemma ForallOrdPairs_snoc {A : Type} (R : A -> A -> Prop) (l : list A) (a : A) :
  ForallOrdPairs R l -> Forall (fun b => R b a) l -> ForallOrdPairs R (l ++ [a]).
Proof.
  induction 1 as [|b l Hb Hl IH]; intros Ha; cbn [app].
  - constructor; constructor.
  - inversion Ha; subst. constructor.
    + apply Forall_app. split; [exact Hb|]. constructor; [assumption|constructor].
    + apply IH. assumption.
Qed.

Lemma ForallOrdPairs_nth {A : Type} (R : A -> A -> Prop) (l : list A) (d : A) :
  ForallOrdPairs R l ->
  forall i j, (i < j)%nat -> (j < length l)%nat -> R (nth i l d) (nth j l d).
Proof.
  induction 1 as [|a l Ha Hl IH]; intros i j Hij Hj; cbn [length] in Hj; [lia|].
  destruct j as [|j]; [lia|]. destruct i as [|i]; cbn [nth].
  - rewrite Forall_forall in Ha. apply Ha. apply nth_In. lia.
  - apply IH; lia.
Qed.

Section Suppression.

Variable argsort : list Q -> list nat.
Hypothesis argsort_ok : argsort_spec argsort.

(** C1: on every table of candidates, for every expected count that is
    unbounded or a positive integer and every [maxOverlap], [NMS] returns an
    array of at most [N_object] and at most as many entries as the input has
    rows, and any two entries of it have an IoU of at most [maxOverlap]. *)
Theorem NMS_size_and_overlap (rows : list Hit) (scoreThreshold : option Q)
    (sortAscending : bool) (N_object : number) (maxOverlap : Q) :
  valid_count N_object ->
  exists out,
    NMS argsort (Array2D rows) scoreThreshold sortAscending N_object maxOverlap
      = Ok (Array1D out) /\
    at_most (length out) N_object /\
    (length out <= length rows)%nat /\
    forall i j, (i < length out)%nat -> (j < length out)%nat -> i <> j ->
      (computeIoU (nth i out (0, 0, 0, 0)%Z) (nth j out (0, 0, 0, 0)%Z) <= maxOverlap)%Q.
Proof.
  intros HN.
  destruct (NMS_threshold_total rows scoreThreshold sortAscending)
    as (kept & Hk & _ & Hklen).
  destruct (NMS_sort_total argsort argsort_ok kept sortAscending) as (sorted & Hs & Hperm).
  rewrite (NMS_unfold argsort rows scoreThreshold sortAscending N_object maxOverlap
             kept sorted Hk Hs).
  apply Permutation_length in Hperm.
  set (R := fun a b : BBox => (computeIoU b a <= maxOverlap)%Q).
  assert (Hpairs : forall out, ForallOrdPairs R out ->
            forall i j, (i < length out)%nat -> (j < length out)%nat -> i <> j ->
            (computeIoU (nth i out (0, 0, 0, 0)%Z) (nth j out (0, 0, 0, 0)%Z) <= maxOverlap)%Q).
  { intros out Hout i j Hi Hj Hij.
    destruct (Nat.lt_ge_cases i j) as [Hlt|Hge].
    - rewrite computeIoU_comm. apply (ForallOrdPairs_nth R out _ Hout i j Hlt Hj).
    - apply (ForallOrdPairs_nth R out _ Hout j i); lia. }
  destruct sorted as [|h sorted].
  - exists []. cbn [firstn skipn map]. rewrite NMS_loop_equation_1. cbn [rbind].
    split; [reflexivity|]. split.
    + destruct N_object; cbn [at_most valid_count length Z.of_nat] in *;
        [exact I|lia|contradiction].
    + split; [cbn [length]; lia|]. cbn [length]. intros; lia.
  - cbn [firstn skipn map].
    set (Inv := fun out rest : list BBox =>
                (length out + length rest <= length rows)%nat /\
                ForallOrdPairs R out /\ at_most (length out) N_object).
    destruct (NMS_loop_rule N_object maxOverlap Inv) with
      (rest := map bbox sorted) (out := [bbox h]) (ToAppend := @None bool)
      as (out' & rest' & Hrun & (Hlen & Hfop & Hmost) & _).
    + intros out t rest Hne (Hl & Hf & Hm) Hlt.
      assert (Hd : (length (delete_equal t rest) <= length rest)%nat)
        by apply filter_length_le.
      destruct (fits maxOverlap t out) eqn:Hfit.
      * split; [rewrite length_app; cbn [length]; cbn [length] in Hl; lia|].
        split; [apply ForallOrdPairs_snoc; [exact Hf|apply fits_Forall; exact Hfit]|].
        rewrite length_app. cbn [length].
        destruct N_object; cbn [at_most valid_count Z_lt_number] in *; [exact I| |contradiction].
        apply Z.ltb_lt in Hlt. lia.
      * split; [cbn [length] in Hl; lia|]. split; assumption.
    + discriminate.
    + split; [cbn [length] in *; rewrite length_map; lia|].
      split; [constructor; constructor|].
      destruct N_object; cbn [at_most valid_count length Z.of_nat] in *;
        [exact I|lia|contradiction].
    + exists out'. rewrite Hrun. cbn [rbind]. split; [reflexivity|].
      split; [exact Hmost|]. split; [lia|]. apply Hpairs. exact Hfop.
Qed.

End Suppression.

(** ** The insertion sort meets the contract of [argsort] *)

Lemma insert_index_perm (scores : list Q) (i : nat) (sorted : list nat) :
  Permutation (insert_index scores i sorted) (i :: sorted).
Proof.
  induction sorted as [|j sorted IH]; cbn [insert_index]; [reflexivity|].
  destruct (Qle_bool (nth j scores 0%Q) (nth i scores 0%Q)); [|reflexivity].
  rewrite IH. apply perm_swap.
Qed.

Lemma insert_index_sorted (scores : list Q) (i : nat) (sorted : list nat) :
  StronglySorted (fun a b => (nth a scores 0 <= nth b scores 0)%Q) sorted ->
  StronglySorted (fun a b => (nth a scores 0 <= nth b scores 0)%Q)
                 (insert_index scores i sorted).
Proof.
  induction 1 as [|j sorted Hs IH Hj]; cbn [insert_index].
  - constructor; constructor.
  - destruct (Qle_bool (nth j scores 0%Q) (nth i scores 0%Q)) eqn:E.
    + constructor; [exact IH|].
      apply Forall_forall. intros x Hx.
      apply (Permutation_in _ (insert_index_perm scores i sorted)) in Hx.
      destruct Hx as [<-|Hx].
      * apply Qle_bool_iff. exact E.
      * rewrite Forall_forall in Hj. apply Hj. exact Hx.
    + assert (Hij : (nth i scores 0 <= nth j scores 0)%Q).
      { destruct (Qlt_le_dec (nth i scores 0%Q) (nth j scores 0%Q)) as [Hlt|Hle].
        - apply Qlt_le_weak. exact Hlt.
        - apply Qle_bool_iff in Hle. congruence. }
      constructor; [constructor; assumption|].
      constructor; [exact Hij|].
      apply Forall_forall. intros x Hx. rewrite Forall_forall in Hj.
      apply Qle_trans with (nth j scores 0%Q); [exact Hij|apply Hj; exact Hx].
Qed.

Lemma insertion_argsort_spec : argsort_spec insertion_argsort.
Proof.
  intros scores. unfold insertion_argsort.
  assert (H : forall l acc,
             StronglySorted (fun a b => (nth a scores 0 <= nth b scores 0)%Q) acc ->
             Permutation (fold_left (fun sorted i => insert_index scores i sorted) l acc)
                         (acc ++ l) /\
             StronglySorted (fun a b => (nth a scores 0 <= nth b scores 0)%Q)
               (fold_left (fun sorted i => insert_index scores i sorted) l acc)).
  { induction l as [|i l IH]; intros acc Hacc; cbn [fold_left].
    - rewrite app_nil_r. split; [reflexivity|exact Hacc].
    - destruct (IH (insert_index scores i acc) (insert_index_sorted scores i acc Hacc))
        as [Hp Hs].
      split; [|exact Hs].
      rewrite Hp, insert_index_perm. apply (Permutation_middle acc l i). }
  destruct (H (seq 0 (length scores)) [] (SSorted_nil _)) as [Hp Hs].
  split; assumption.
Qed.

Lemma NMS_size_and_overlap_witness :
  exists out,
    NMS insertion_argsort (Array2D [hit_a; hit_b]) None false (Int 2) (1 # 4)
      = Ok (Array1D out) /\
    at_most (length out) (Int 2) /\
    (length out <= length [hit_a; hit_b])%nat /\
    forall i j, (i < length out)%nat -> (j < length out)%nat -> i <> j ->
      (computeIoU (nth i out (0, 0, 0, 0)%Z) (nth j out (0, 0, 0, 0)%Z) <= 1 # 4)%Q.
Proof.
  apply (NMS_size_and_overlap insertion_argsort insertion_argsort_spec
           [hit_a; hit_b] None false (Int 2) (1 # 4)).
  simpl. lia.
Defined.

(** ** The threshold step *)

(** C5: with a threshold and [sortAscending] true, a hit is dropped exactly
    when its score is strictly above the threshold; with [sortAscending]
    false, exactly when it is strictly below; without a threshold every hit
    is retained. *)
Theorem NMS_threshold_direction (rows : list Hit) (thr : Q) :
  (exists kept,
      NMS_threshold (Array2D rows) (Some thr) true = Ok (Array2D kept) /\
      forall d, In d rows -> (~ In d kept <-> (thr < coeff d)%Q)) /\
  (exists kept,
      NMS_threshold (Array2D rows) (Some thr) false = Ok (Array2D kept) /\
      forall d, In d rows -> (~ In d kept <-> (coeff d < thr)%Q)) /\
  (forall sortAscending,
      NMS_threshold (Array2D rows) None sortAscending = Ok (Array2D rows)).
Proof.
  split; [|split].
  - rewrite NMS_threshold_rows. eexists. split; [reflexivity|].
    intros d Hd. rewrite filter_In, Qle_bool_iff. split.
    + intros Hn. apply Qnot_le_lt. intros Hle. apply Hn. split; assumption.
    + intros Hlt [_ Hle]. apply (Qlt_not_le _ _ Hlt). exact Hle.
  - rewrite NMS_threshold_rows. eexists. split; [reflexivity|].
    intros d Hd. rewrite filter_In, Qle_bool_iff. split.
    + intros Hn. apply Qnot_le_lt. intros Hle. apply Hn. split; assumption.
    + intros Hlt [_ Hle]. apply (Qlt_not_le _ _ Hlt). exact Hle.
  - reflexivity.
Qed.

(** ** Empty inputs *)

(** On a table with two axes whose threshold step leaves no row, [NMS]
    returns the empty array. *)
Lemma NMS_nothing_kept (argsort : list Q -> list nat) (rows : list Hit)
    (thr : option Q) (asc : bool) (N : number) (mo : Q) :
  argsort_spec argsort ->
  NMS_threshold (Array2D rows) thr asc = Ok (Array2D []) ->
  NMS argsort (Array2D rows) thr asc N mo = Ok (Array1D []).
Proof.
  intros Hok Hk.
  destruct (NMS_sort_total argsort Hok [] asc) as (sorted & Hs & Hperm).
  rewrite (NMS_unfold argsort rows thr asc N mo [] sorted Hk Hs).
  apply Permutation_sym, Permutation_nil in Hperm. subst sorted.
  cbn [firstn skipn map]. rewrite NMS_loop_equation_1. reflexivity.
Qed.

(** C3: the empty table that [findMatches] builds, [np.asarray([])], has a
    single axis; [NMS] indexes its score column and raises [IndexError],
    whatever the other arguments. *)
Theorem NMS_empty_asarray_raises (argsort : list Q -> list nat)
    (scoreThreshold : option Q) (sortAscending : bool) (N_object : number)
    (maxOverlap : Q) :
  NMS argsort (np_asarray []) scoreThreshold sortAscending N_object maxOverlap
  = Raise IndexError.
Proof.
  destruct scoreThreshold as [thr|], sortAscending; reflexivity.
Qed.

(** ** What the returned array holds *)

Section Returned.

Variable argsort : list Q -> list nat.
Hypothesis argsort_ok : argsort_spec argsort.

(** [NMS] returns the array of the accepted boxes alone; each entry is the
    box of one of the input rows, unchanged. *)
Theorem NMS_returns_input_boxes (rows : list Hit) (scoreThreshold : option Q)
    (sortAscending : bool) (N_object : number) (maxOverlap : Q) :
  exists out,
    NMS argsort (Array2D rows) scoreThreshold sortAscending N_object maxOverlap
      = Ok (Array1D out) /\
    forall b, In b out -> exists d, In d rows /\ bbox d = b.
Proof.
  destruct (NMS_threshold_total rows scoreThreshold sortAscending)
    as (kept & Hk & Hincl & _).
  destruct (NMS_sort_total argsort argsort_ok kept sortAscending) as (sorted & Hs & Hperm).
  rewrite (NMS_unfold argsort rows scoreThreshold sortAscending N_object maxOverlap
             kept sorted Hk Hs).
  set (P := fun b : BBox => exists d, In d rows /\ bbox d = b).
  assert (HP : Forall P (map bbox sorted)).
  { apply Forall_forall. intros b Hb. apply in_map_iff in Hb.
    destruct Hb as (d & Hd & Hin). exists d. split; [|exact Hd].
    apply Hincl. apply (Permutation_in _ Hperm). exact Hin. }
  destruct sorted as [|h sorted].
  - exists []. cbn [firstn skipn map]. rewrite NMS_loop_equation_1.
    split; [reflexivity|]. intros b [].
  - cbn [firstn skipn map]. cbn [map] in HP. inversion HP as [|? ? Hh Hrest]; subst.
    destruct (NMS_loop_rule N_object maxOverlap
                (fun out rest => Forall P out /\ Forall P rest))
      with (rest := map bbox sorted) (out := [bbox h]) (ToAppend := @None bool)
      as (out' & rest' & Hrun & (Hout & _) & _).
    + intros out t rest _ (Ho & Hr) _.
      inversion Hr as [|? ? Ht Hr']; subst.
      assert (Hd : Forall P (delete_equal t rest)).
      { apply Forall_forall. intros b Hb. apply delete_equal_In in Hb.
        rewrite Forall_forall in Hr'. apply Hr'. tauto. }
      destruct (fits maxOverlap t out); split; try assumption.
      apply Forall_app. split; [exact Ho|]. constructor; [exact Ht|constructor].
    + discriminate.
    + split; [constructor; [exact Hh|constructor]|exact Hrest].
    + exists out'. rewrite Hrun. split; [reflexivity|].
      rewrite Forall_forall in Hout. exact Hout.
Qed.

End Returned.

Lemma NMS_returns_input_boxes_witness :
  exists out,
    NMS insertion_argsort (Array2D [hit_a; hit_b]) (Some (1 # 4)) false (Int 2) (1 # 4)
      = Ok (Array1D out) /\
    forall b, In b out -> exists d, In d [hit_a; hit_b] /\ bbox d = b.
Proof.
  exact (NMS_returns_input_boxes insertion_argsort insertion_argsort_spec
           [hit_a; hit_b] (Some (1 # 4)) false (Int 2) (1 # 4)).
Defined.

(** C2: the returned entries do not carry the three fields of a hit.  Two
    tables that differ in the name and in the score of their row yield the
    same returned array, which holds the box alone. *)
Lemma NMS_drops_name_and_score :
  NMS insertion_argsort (Array2D [mkHit "a" (0, 0, 2, 2) (1 # 2)]) None false Inf (1 # 2)
    = Ok (Array1D [(0, 0, 2, 2)]) /\
  NMS insertion_argsort (Array2D [mkHit "z" (0, 0, 2, 2) (1 # 10)]) None false Inf (1 # 2)
    = Ok (Array1D [(0, 0, 2, 2)]).
Proof.
  split; vm_compute; reflexivity.
Qed.

(** ** The sorting step *)

Lemma StronglySorted_map_in {A B : Type} (R : A -> A -> Prop) (R' : B -> B -> Prop)
    (f : A -> B) (l : list A) :
  (forall a b, In a l -> In b l -> R a b -> R' (f a) (f b)) ->
  StronglySorted R l -> StronglySorted R' (map f l).
Proof.
  intros Hf Hs. induction Hs as [|a l Hs IH Ha]; cbn [map]; constructor.
  - apply IH. intros x y Hx Hy. apply Hf; right; assumption.
  - apply Forall_forall. intros y Hy. apply in_map_iff in Hy.
    destruct Hy as (x & <- & Hx). rewrite Forall_forall in Ha.
    apply Hf; [left; reflexivity|right; exact Hx|apply Ha; exact Hx].
Qed.

Lemma StronglySorted_snoc {A : Type} (R : A -> A -> Prop) (l : list A) (a : A) :
  StronglySorted R l -> Forall (fun b => R b a) l -> StronglySorted R (l ++ [a]).
Proof.
  induction 1 as [|b l Hs IH Hb]; intros Ha; cbn [app].
  - constructor; constructor.
  - inversion Ha; subst. constructor; [apply IH; assumption|].
    apply Forall_app. split; [exact Hb|]. constructor; [assumption|constructor].
Qed.

Lemma StronglySorted_rev {A : Type} (R : A -> A -> Prop) (l : list A) :
  StronglySorted R l -> StronglySorted (fun a b => R b a) (rev l).
Proof.
  induction 1 as [|a l Hs IH Ha]; cbn [rev]; [constructor|].
  apply StronglySorted_snoc; [exact IH|]. apply Forall_rev. exact Ha.
Qed.

Section Ranking.

Variable argsort : list Q -> list nat.
Hypothesis argsort_ok : argsort_spec argsort.

(** C4, as the code has it: the sorting step rearranges the rows so that the
    scores do not decrease when [sortAscending] is true; otherwise it returns
    the exact reverse of that arrangement, along which the scores do not
    increase.  Nothing is promised on the order of rows of equal score. *)
Theorem NMS_sort_ordered (rows : list Hit) :
  exists up,
    NMS_sort argsort (Array2D rows) true = Ok (Array2D up) /\
    NMS_sort argsort (Array2D rows) false = Ok (Array2D (rev up)) /\
    Permutation up rows /\
    StronglySorted (fun a b => (coeff a <= coeff b)%Q) up /\
    StronglySorted (fun a b => (coeff b <= coeff a)%Q) (rev up).
Proof.
  exists (map (fun i => nth i rows hit_a) (argsort (map coeff rows))).
  rewrite !NMS_sort_rows by exact argsort_ok. cbv zeta.
  split; [reflexivity|]. split; [reflexivity|].
  split; [apply sorted_rows_perm; exact argsort_ok|].
  assert (Hup : StronglySorted (fun a b => (coeff a <= coeff b)%Q)
                  (map (fun i => nth i rows hit_a) (argsort (map coeff rows)))).
  { destruct (argsort_ok (map coeff rows)) as [_ Hs].
    pose proof (argsort_in_range argsort argsort_ok (map coeff rows)) as Hr.
    rewrite Forall_forall in Hr. rewrite length_map in Hr.
    revert Hs. apply StronglySorted_map_in.
    intros i j Hi Hj Hij.
    rewrite (nth_indep _ 0%Q (coeff hit_a)) in Hij by (rewrite length_map; auto).
    rewrite (nth_indep _ 0%Q (coeff hit_a)) in Hij by (rewrite length_map; auto).
    rewrite !map_nth in Hij. exact Hij. }
  split; [exact Hup|]. apply StronglySorted_rev in Hup. exact Hup.
Qed.

End Ranking.

Lemma NMS_sort_ordered_witness :
  exists up,
    NMS_sort insertion_argsort (Array2D [hit_b; hit_a]) true = Ok (Array2D up) /\
    NMS_sort insertion_argsort (Array2D [hit_b; hit_a]) false = Ok (Array2D (rev up)) /\
    Permutation up [hit_b; hit_a] /\
    StronglySorted (fun a b => (coeff a <= coeff b)%Q) up /\
    StronglySorted (fun a b => (coeff b <= coeff a)%Q) (rev up).
Proof.
  exact (NMS_sort_ordered insertion_argsort insertion_argsort_spec [hit_b; hit_a]).
Defined.

(** C4, counterexample: two rows of equal score sorted with
    [sortAscending] false come out in the reverse of their input order, so
    the sort is not stable. *)
Lemma NMS_sort_reverses_ties :
  NMS_sort insertion_argsort (Array2D [hit_a; hit_b]) false = Ok (Array2D [hit_b; hit_a]) /\
  coeff hit_a = coeff hit_b /\
  ~ stable_wrt [hit_a; hit_b] [hit_b; hit_a].
Proof.
  split; [vm_compute; reflexivity|]. split; [reflexivity|].
  intros H. specialize (H (1 # 2)%Q). vm_compute in H. discriminate H.
Qed.

(** ** Running the selection again *)

Lemma ForallOrdPairs_app_cons {A : Type} (R : A -> A -> Prop) (l1 l2 : list A) (a : A) :
  ForallOrdPairs R (l1 ++ a :: l2) -> Forall (fun b => R b a) l1.
Proof.
  induction l1 as [|b l1 IH]; cbn [app]; intros H; [constructor|].
  inversion H as [|? ? Hb Hl]; subst. constructor.
  - rewrite Forall_forall in Hb. apply Hb. apply in_or_app. right. left. reflexivity.
  - apply IH. exact Hl.
Qed.

(** A sequence of boxes that the loop has nothing to object to is returned
    as it is. *)
Lemma NMS_loop_accepts_all (N : number) (mo : Q) (suf : list BBox) :
  forall (pre : list BBox) (ToAppend : option bool),
    pre <> [] ->
    ForallOrdPairs (fun a b => (computeIoU b a <= mo)%Q) (pre ++ suf) ->
    NoDup suf ->
    (forall k, (length pre <= k < length pre + length suf)%nat ->
               Z_lt_number (Z.of_nat k) N = true) ->
    NMS_loop N mo pre suf ToAppend = Ok (pre ++ suf).
Proof.
  induction suf as [|t suf IH]; intros pre ToAppend Hne Hfop Hnd Hk.
  - rewrite NMS_loop_equation_1, app_nil_r. reflexivity.
  - rewrite (NMS_loop_step N mo pre t suf ToAppend Hne).
    rewrite (Hk (length pre)) by (cbn [length]; lia).
    assert (Hfit : fits mo t pre = true).
    { apply fits_Forall. apply (ForallOrdPairs_app_cons _ pre suf t Hfop). }
    rewrite Hfit.
    inversion Hnd as [|? ? Hnotin Hnd']; subst.
    rewrite (delete_equal_absent t suf Hnotin).
    rewrite (IH (pre ++ [t]) (Some true)).
    + rewrite <- app_assoc. reflexivity.
    + destruct pre; discriminate.
    + rewrite <- app_assoc. exact Hfop.
    + exact Hnd'.
    + intros k Hr. apply Hk. rewrite length_app in Hr. cbn [length] in *. lia.
Qed.

Section Idempotence.

Variable argsort : list Q -> list nat.
Hypothesis argsort_ok : argsort_spec argsort.

(** X21: the greedy selection is idempotent.  The array [NMS] returns has a
    single axis, so [NMS] applied to it raises [IndexError]; the selection
    loop itself, started again on the returned boxes (the first one
    accepted, the others as candidates) with the same [maxOverlap] and
    [N_object], returns them unchanged. *)
Theorem NMS_selection_idempotent (rows : list Hit) (scoreThreshold : option Q)
    (sortAscending : bool) (N_object : number) (maxOverlap : Q) :
  exists out,
    NMS argsort (Array2D rows) scoreThreshold sortAscending N_object maxOverlap
      = Ok (Array1D out) /\
    NMS argsort (Array1D out) scoreThreshold sortAscending N_object maxOverlap
      = Raise IndexError /\
    NMS_loop N_object maxOverlap (firstn 1 out) (skipn 1 out) None = Ok out.
Proof.
  destruct (NMS_threshold_total rows scoreThreshold sortAscending)
    as (kept & Hk & _ & _).
  destruct (NMS_sort_total argsort argsort_ok kept sortAscending) as (sorted & Hs & _).
  rewrite (NMS_unfold argsort rows scoreThreshold sortAscending N_object maxOverlap
             kept sorted Hk Hs).
  assert (Hraise : forall out,
            NMS argsort (Array1D out) scoreThreshold sortAscending N_object maxOverlap
            = Raise IndexError).
  { intros out. destruct scoreThreshold, sortAscending; reflexivity. }
  destruct sorted as [|h sorted].
  - exists []. cbn [firstn skipn map]. rewrite NMS_loop_equation_1.
    split; [reflexivity|]. split; [apply Hraise|reflexivity].
  - cbn [firstn skipn map].
    set (R := fun a b : BBox => (computeIoU b a <= maxOverlap)%Q).
    set (Inv := fun out rest : list BBox =>
                  ForallOrdPairs R out /\ NoDup (tl out) /\
                  (forall b, In b (tl out) -> ~ In b rest) /\
                  (forall k, (1 <= k < length out)%nat ->
                             Z_lt_number (Z.of_nat k) N_object = true)).
    destruct (NMS_loop_rule N_object maxOverlap Inv)
      with (rest := map bbox sorted) (out := [bbox h]) (ToAppend := @None bool)
      as (out' & rest' & Hrun & (Hfop & Hnd & _ & Hlt) & Hne).
    + intros out t rest Hne (Hf & Hn & Hdis & Hk') Hlt.
      assert (Hdis' : forall b, In b (tl out) -> ~ In b (delete_equal t rest)).
      { intros b Hb Hin. apply delete_equal_In in Hin.
        apply (Hdis b Hb). right. tauto. }
      destruct (fits maxOverlap t out) eqn:Hfit.
      * assert (Htl : tl (out ++ [t]) = tl out ++ [t])
          by (destruct out; [contradiction|reflexivity]).
        split; [apply ForallOrdPairs_snoc; [exact Hf|apply fits_Forall; exact Hfit]|].
        rewrite Htl. split; [|split].
        -- apply (Permutation_NoDup (l := t :: tl out)).
           ++ apply Permutation_cons_append.
           ++ constructor; [|exact Hn]. intros Hin. apply (Hdis t Hin). left. reflexivity.
        -- intros b Hb Hin. apply in_app_or in Hb. destruct Hb as [Hb|[<-|[]]].
           ++ apply (Hdis' b Hb Hin).
           ++ apply delete_equal_In in Hin. tauto.
        -- intros k Hr. rewrite length_app in Hr. cbn [length] in Hr.
           destruct (Nat.eq_dec k (length out)) as [->|Hneq]; [exact Hlt|].
           apply Hk'. lia.
      * split; [exact Hf|]. split; [exact Hn|]. split; [exact Hdis'|exact Hk'].
    + discriminate.
    + split; [constructor; constructor|]. split; [constructor|].
      split; [intros b []|]. intros k Hr. cbn [length] in Hr. lia.
    + exists out'. rewrite Hrun. cbn [rbind]. split; [reflexivity|].
      split; [apply Hraise|].
      destruct out' as [|b1 out']; [contradiction|]. cbn [firstn skipn tl] in *.
      apply (NMS_loop_accepts_all N_object maxOverlap out' [b1] None).
      * discriminate.
      * exact Hfop.
      * exact Hnd.
      * intros k Hr. apply Hlt. cbn [length] in *. lia.
Qed.

End Idempotence.

Lemma NMS_selection_idempotent_witness :
  exists out,
    NMS insertion_argsort (Array2D [hit_a; hit_b]) None false (Int 2) (1 # 4)
      = Ok (Array1D out) /\
    NMS insertion_argsort (Array1D out) None false (Int 2) (1 # 4) = Raise IndexError /\
    NMS_loop (Int 2) (1 # 4) (firstn 1 out) (skipn 1 out) None = Ok out.
Proof.
  exact (NMS_selection_idempotent insertion_argsort insertion_argsort_spec
           [hit_a; hit_b] None false (Int 2) (1 # 4)).
Defined.

(** C8: [NMS] applied to its own output does not return that output.  It
    returns an array of two boxes, and [NMS] applied to that array with the
    same arguments raises [IndexError]. *)
Lemma NMS_twice_raises :
  NMS insertion_argsort (Array2D [hit_a; hit_b]) None false Inf (1 # 4)
    = Ok (Array1D [(10, 10, 2, 2); (0, 0, 2, 2)]) /\
  (out <- NMS insertion_argsort (Array2D [hit_a; hit_b]) None false Inf (1 # 4) ;;
   NMS insertion_argsort out None false Inf (1 # 4)) = Raise IndexError.
Proof.
  split; vm_compute; reflexivity.
Qed.

(** ** Candidate collection: proofs *)

Lemma mbind_Ok {A B : Type} (log : list event) (a : A) (f : A -> M B) :
  mbind (log, Ok a) f = (log ++ fst (f a), snd (f a)).
Proof. unfold mbind. destruct (f a). reflexivity. Qed.

Lemma mbind_Raise {A B : Type} (log : list event) (e : exn) (f : A -> M B) :
  mbind (log, Raise e) f = (log, Raise e).
Proof. reflexivity. Qed.

Lemma mbind_cons {A B : Type} (c : event) (log : list event) (r : result A)
    (f : A -> M B) :
  exists log' r', mbind (c :: log, r) f = (c :: log', r').
Proof.
  destruct r as [a|e].
  - rewrite mbind_Ok. eexists. eexists. reflexivity.
  - rewrite mbind_Raise. eexists. eexists. reflexivity.
Qed.

Section Collector.

Variable ext : External.

Lemma findMatches_unfold (listTemplates : list (String.string * Image)) (image : Image)
    (method : Z) (N_object : number) (score_threshold : Q)
    (searchBox : option (Z * Z * Z * Z)) :
  check_N_object N_object = Ok tt ->
  findMatches ext listTemplates image method N_object score_threshold searchBox =
  (listHit <~ findMatches_loop ext listTemplates (search_image image searchBox) method
                N_object score_threshold (fst (search_offset searchBox))
                (snd (search_offset searchBox)) None [] ;;
   mret (np_asarray listHit)).
Proof.
  intros Hc. unfold findMatches. rewrite Hc. unfold mlift. rewrite mbind_Ok.
  cbn [app].
  destruct searchBox as [[[[x y] w] h]|]; cbn [search_image search_offset fst snd];
    match goal with |- context [mbind ?m ?f] => destruct (mbind m f) end; reflexivity.
Qed.

Lemma findMatches_checks_first (listTemplates : list (String.string * Image))
    (image : Image) (method : Z) (N_object : number) (score_threshold : Q)
    (searchBox : option (Z * Z * Z * Z)) (e : exn) :
  check_N_object N_object = Raise e ->
  findMatches ext listTemplates image method N_object score_threshold searchBox
  = ([], Raise e).
Proof.
  intros Hc. unfold findMatches. rewrite Hc. reflexivity.
Qed.


Lemma computeScoreMap_call (template image : Image) (method : Z) :
  img_dtype template <> float64 -> img_dtype image <> float64 ->
  exists a b,
    computeScoreMap ext template image method
      = ([Call_matchTemplate a b method], cv2_matchTemplate ext a b method) /\
    pixels a = pixels template /\ pixels b = pixels image.
Proof.
  intros Ht Hi. unfold computeScoreMap.
  replace (dtype_eqb (img_dtype template) float64) with false
    by (destruct (img_dtype template); try reflexivity; contradiction).
  replace (dtype_eqb (img_dtype image) float64) with false
    by (destruct (img_dtype image); try reflexivity; contradiction).
  cbn [orb].
  destruct (negb (dtype_eqb (img_dtype template) uint8 && dtype_eqb (img_dtype image) uint8));
    eexists; eexists; (split; [reflexivity|split; reflexivity]).
Qed.

(** C9, as the code has it: the file compares no shapes.  Once [N_object]
    has passed its check, and provided neither array is 64-bit, the first
    thing [findMatches] does with a template of any height and width is to
    hand it, with the search image or its crop, to the similarity function;
    when that call raises, its error is the outcome. *)
Theorem findMatches_compares_no_shapes (name : String.string) (template : Image)
    (listTemplates : list (String.string * Image)) (image : Image) (method : Z)
    (N_object : number) (score_threshold : Q) (searchBox : option (Z * Z * Z * Z)) :
  check_N_object N_object = Ok tt ->
  img_dtype template <> float64 -> img_dtype image <> float64 ->
  exists a b log r,
    findMatches ext ((name, template) :: listTemplates) image method N_object
                score_threshold searchBox
      = (Call_matchTemplate a b method :: log, r) /\
    pixels a = pixels template /\
    pixels b = pixels (search_image image searchBox) /\
    forall e, cv2_matchTemplate ext a b method = Raise e -> log = [] /\ r = Raise e.
Proof.
  intros Hc Ht Hi.
  assert (Hi' : img_dtype (search_image image searchBox) <> float64).
  { destruct searchBox as [[[[x y] w] h]|]; exact Hi. }
  destruct (computeScoreMap_call template (search_image image searchBox) method Ht Hi')
    as (a & b & Hcall & Ha & Hb).
  exists a, b.
  rewrite (findMatches_unfold _ _ _ _ _ _ Hc).
  cbn [findMatches_loop]. rewrite Hcall.
  destruct (cv2_matchTemplate ext a b method) as [corrMap|e0] eqn:Hext.
  - rewrite mbind_Ok. cbn [app].
    match goal with
    | |- context [mbind (?c :: ?l, ?r0) ?f] =>
        destruct (mbind_cons c l r0 f) as (log & r & Hlog)
    end.
    rewrite Hlog. exists log, r.
    split; [reflexivity|]. split; [exact Ha|]. split; [exact Hb|].
    intros e He. discriminate He.
  - rewrite !mbind_Raise. exists [], (Raise e0).
    split; [reflexivity|]. split; [exact Ha|]. split; [exact Hb|].
    intros e He. injection He as ->. split; reflexivity.
Qed.

End Collector.

Lemma findMatches_compares_no_shapes_witness :
  exists a b log r,
    findMatches sample_ext [("t", blank 3 3)] (blank 2 2) 5 Inf (1 # 2) None
      = (Call_matchTemplate a b 5 :: log, r) /\
    pixels a = pixels (blank 3 3) /\
    pixels b = pixels (search_image (blank 2 2) None) /\
    forall e, cv2_matchTemplate sample_ext a b 5 = Raise e -> log = [] /\ r = Raise e.
Proof.
  apply (findMatches_compares_no_shapes sample_ext "t" (blank 3 3) [] (blank 2 2)
           5 Inf (1 # 2) None).
  - reflexivity.
  - simpl. discriminate.
  - simpl. discriminate.
Defined.

(** C9, counterexample: a 3x3 template searched in a 2x2 image.  The
    similarity function is called on the pair and [findMatches] returns a
    hit; with a 1x3 template, which fits the image on neither side, the
    failure is the one the similarity function itself raises, after it was
    called. *)
Lemma findMatches_oversize_template :
  shape_2 (blank 3 3) = (3, 3) /\ shape_2 (blank 2 2) = (2, 2) /\
  findMatches sample_ext [("t", blank 3 3)] (blank 2 2) 5 (Int 1) (1 # 2) None
    = ([Call_matchTemplate (blank 3 3) (blank 2 2) 5],
       Ok (Array2D [mkHit "t" (0, 0, 3, 3) 1])) /\
  findMatches sample_ext [("t", blank 1 3)] (blank 2 2) 5 (Int 1) (1 # 2) None
    = ([Call_matchTemplate (blank 1 3) (blank 2 2) 5], Raise cv2_error).
Proof.
  repeat split; vm_compute; reflexivity.
Qed.

(** ** Methods other than 1, 3 and 5 *)

Section OtherMethods.

Variable ext : External.



End OtherMethods.



(** * Further properties *)

(** ** Geometry *)

Lemma BBox_in_BBox_coords (x1 y1 w1 h1 x2 y2 w2 h2 : Z) :
  BBox_in_BBox (x1, y1, w1, h1) (x2, y2, w2, h2) = true <->
  (x2 <= x1 /\ x1 <= x2 + w2 - 1 /\ x2 <= x1 + w1 - 1 /\ x1 + w1 - 1 <= x2 + w2 - 1) /\
  (y2 <= y1 /\ y1 <= y2 + h2 - 1 /\ y2 <= y1 + h1 - 1 /\ y1 + h1 - 1 <= y2 + h2 - 1).
Proof.
  unfold BBox_in_BBox, Point_in_Rectangle.
  rewrite !andb_true_iff, !Z.leb_le. lia.
Qed.

(** In the branch that divides, the intersection is strictly smaller than
    the first box: otherwise the first box would lie inside the second. *)
Lemma Inter_area_lt_first (a b : BBox) :
  no_intersection a b = false -> BBox_in_BBox a b = false ->
  let '(_, _, w1, h1) := a in Inter_area a b < w1 * h1.
Proof.
  destruct a as [[[x1 y1] w1] h1], b as [[[x2 y2] w2] h2]. intros Hn Hin.
  apply not_true_iff_false in Hin. rewrite BBox_in_BBox_coords in Hin.
  unfold no_intersection, Inter_area in *.
  apply orb_false_iff in Hn. destruct Hn as [Hx Hy].
  apply Z.ltb_ge in Hx. apply Z.ltb_ge in Hy.
  set (X := Z.min (x1 + w1 - 1) (x2 + w2 - 1) - Z.max x1 x2 + 1) in *.
  set (Y := Z.min (y1 + h1 - 1) (y2 + h2 - 1) - Z.max y1 y2 + 1) in *.
  assert (HX : 1 <= X <= w1) by (subst X; lia).
  assert (HY : 1 <= Y <= h1) by (subst Y; lia).
  destruct (Z.eq_dec X w1) as [EX|NX]; [destruct (Z.eq_dec Y h1) as [EY|NY]|].
  - exfalso. apply Hin. subst X Y. lia.
  - clearbody X Y. nia.
  - clearbody X Y. nia.
Qed.

Lemma computeIoU_division_branch (a b : BBox) :
  BBox_in_BBox a b || BBox_in_BBox b a = false ->
  no_intersection a b = false ->
  computeIoU a b = truediv (Inter_area a b) (Union_area a b) /\
  1 <= Inter_area a b /\ Inter_area a b < Union_area a b.
Proof.
  intros Hf Hn. unfold computeIoU. rewrite Hf, Hn. split; [reflexivity|].
  apply orb_false_iff in Hf. destruct Hf as [Hab Hba].
  pose proof (Inter_area_bounds a b Hn) as Hb.
  pose proof (Inter_area_lt_first a b Hn Hab) as H1.
  assert (Hn' : no_intersection b a = false) by (rewrite no_intersection_comm; exact Hn).
  pose proof (Inter_area_lt_first b a Hn' Hba) as H2.
  rewrite (Inter_area_comm b a) in H2.
  unfold Union_area.
  destruct a as [[[x1 y1] w1] h1], b as [[[x2 y2] w2] h2]. lia.
Qed.

(** X1: whatever the integers in the two boxes, [computeIoU] never divides
    by zero: when it reaches the division, the intersection has at least one
    pixel and the divisor is strictly larger, so the exact quotient lies
    strictly between 0 and 1; the value returned is the double nearest to
    it. *)
Theorem computeIoU_division_safe (A B : BBox) :
  BBox_in_BBox A B || BBox_in_BBox B A = false ->
  no_intersection A B = false ->
  1 <= Inter_area A B /\ Inter_area A B < Union_area A B /\
  (0 < inject_Z (Inter_area A B) / inject_Z (Union_area A B))%Q /\
  (inject_Z (Inter_area A B) / inject_Z (Union_area A B) < 1)%Q /\
  computeIoU A B = truediv (Inter_area A B) (Union_area A B).
Proof.
  intros Hf Hn.
  destruct (computeIoU_division_branch A B Hf Hn) as (Hv & Hi & Hu).
  split; [exact Hi|]. split; [exact Hu|].
  assert (HU : (0 < inject_Z (Union_area A B))%Q)
    by (rewrite <- (Zlt_Qlt 0); lia).
  split; [|split; [|exact Hv]].
  - apply Qlt_shift_div_l; [exact HU|].
    rewrite Qmult_0_l. rewrite <- (Zlt_Qlt 0). lia.
  - apply Qlt_shift_div_r; [exact HU|].
    rewrite Qmult_1_l. rewrite <- Zlt_Qlt. exact Hu.
Qed.

Lemma computeIoU_division_safe_witness :
  1 <= Inter_area (0, 0, 4, 4) (2, 2, 4, 4) /\
  Inter_area (0, 0, 4, 4) (2, 2, 4, 4) < Union_area (0, 0, 4, 4) (2, 2, 4, 4) /\
  (0 < inject_Z (Inter_area (0, 0, 4, 4)%Z (2, 2, 4, 4)%Z)
       / inject_Z (Union_area (0, 0, 4, 4)%Z (2, 2, 4, 4)%Z))%Q /\
  (inject_Z (Inter_area (0, 0, 4, 4)%Z (2, 2, 4, 4)%Z)
   / inject_Z (Union_area (0, 0, 4, 4)%Z (2, 2, 4, 4)%Z) < 1)%Q /\
  computeIoU (0, 0, 4, 4) (2, 2, 4, 4)
  = truediv (Inter_area (0, 0, 4, 4) (2, 2, 4, 4)) (Union_area (0, 0, 4, 4) (2, 2, 4, 4)).
Proof.
  apply (computeIoU_division_safe (0, 0, 4, 4) (2, 2, 4, 4)); reflexivity.
Defined.

(** For integers below [2 ^ 53] the double nearest to a quotient strictly
    between 0 and 1 is itself strictly between 0 and 1. *)
Lemma truediv_strict (a b : Z) :
  1 <= a < b -> b < 2 ^ 53 -> (0 < truediv a b)%Q /\ (truediv a b < 1)%Q.
Proof.
  intros Hab Hb. unfold truediv.
  pose proof (Z.log2_spec a ltac:(lia)) as La.
  pose proof (Z.log2_spec b ltac:(lia)) as Lb.
  pose proof (Z.log2_nonneg a) as La0.
  assert (Hlb : Z.log2 b < 53) by (apply Z.log2_lt_pow2; lia).
  set (d := Z.log2 b - Z.log2 a).
  assert (Hd : 0 <= d <= 52) by (subst d; pose proof (Z.log2_le_mono a b); lia).
  set (s := if b <=? a * 2 ^ d then d else d + 1).
  assert (Hs : 1 <= s <= 53 /\ b <= a * 2 ^ s).
  { subst s. destruct (b <=? a * 2 ^ d) eqn:E.
    - apply Z.leb_le in E. split; [|exact E].
      destruct (Z.eq_dec d 0) as [Hz|Hz]; [|lia].
      rewrite Hz in E. cbn in E. lia.
    - split; [lia|].
      assert (Hpow : 2 ^ Z.succ (Z.log2 b) = 2 ^ Z.log2 a * 2 ^ (d + 1)).
      { rewrite <- Z.pow_add_r by lia. f_equal. subst d. lia. }
      assert (HY : 0 < 2 ^ (d + 1)) by (apply Z.pow_pos_nonneg; lia).
      destruct La as [La _]. destruct Lb as [_ Lb]. rewrite Hpow in Lb.
      set (X := 2 ^ Z.log2 a) in *. set (Y := 2 ^ (d + 1)) in *.
      clearbody X Y. nia. }
  destruct Hs as [Hs Hnorm].
  replace (Z.min (s + 52) 1074) with (s + 52) by lia.
  assert (HP : 2 ^ (s + 52) = 2 ^ s * 2 ^ 52) by (apply Z.pow_add_r; lia).
  assert (Hs2 : 2 <= 2 ^ s).
  { change 2 with (2 ^ 1) at 1. apply Z.pow_le_mono_r; lia. }
  assert (H53 : 2 ^ 53 = 2 * 2 ^ 52) by reflexivity.
  set (T := 2 ^ 52) in *. assert (HT : 1 <= T) by (subst T; apply Z.lt_le_incl; reflexivity || lia).
  set (S := 2 ^ s) in *. set (P := 2 ^ (s + 52)) in *.
  clearbody T S P. clear La Lb La0 Hlb d Hd s Hs.
  set (n := a * P).
  pose proof (Z.div_mod n b ltac:(lia)) as Hdm.
  pose proof (Z.mod_pos_bound n b ltac:(lia)) as Hr.
  set (m := n / b) in *. set (r := n mod b) in *. clearbody m r.
  assert (Hn1 : b * T <= n) by (subst n P; nia).
  assert (Hn2 : n <= (b - 1) * P) by (subst n; nia).
  assert (HbP : b < P) by (subst P; nia).
  assert (Hm1 : 1 <= m) by nia.
  assert (Hm2 : m <= P - 2) by nia.
  assert (HPQ : (0 < inject_Z P)%Q) by (rewrite <- (Zlt_Qlt 0); lia).
  destruct ((b <? 2 * r) || ((b =? 2 * r) && Z.odd m)); split.
  - apply Qlt_shift_div_l; [exact HPQ|]. rewrite Qmult_0_l, <- (Zlt_Qlt 0). lia.
  - apply Qlt_shift_div_r; [exact HPQ|]. rewrite Qmult_1_l, <- Zlt_Qlt. lia.
  - apply Qlt_shift_div_l; [exact HPQ|]. rewrite Qmult_0_l, <- (Zlt_Qlt 0). lia.
  - apply Qlt_shift_div_r; [exact HPQ|]. rewrite Qmult_1_l, <- Zlt_Qlt. lia.
Qed.

Lemma computeIoU_division_strict (A B : BBox) :
  Union_area A B < 2 ^ 53 ->
  BBox_in_BBox A B || BBox_in_BBox B A = false ->
  no_intersection A B = false ->
  (0 < computeIoU A B)%Q /\ (computeIoU A B < 1)%Q.
Proof.
  intros Hsmall Hf Hn.
  destruct (computeIoU_division_branch A B Hf Hn) as (-> & Hi & Hu).
  apply truediv_strict; lia.
Qed.

(** X2: as long as the union of the two boxes has fewer than [2 ^ 53]
    pixels, [computeIoU] returns 1 exactly when the four corners of one box
    lie in the other: a partial overlap never reaches 1. *)
Theorem computeIoU_one_iff (A B : BBox) :
  Union_area A B < 2 ^ 53 ->
  ((computeIoU A B == 1)%Q <-> BBox_in_BBox A B || BBox_in_BBox B A = true).
Proof.
  intros Hsmall. split.
  - intros Heq.
    destruct (BBox_in_BBox A B || BBox_in_BBox B A) eqn:Hf; [reflexivity|].
    destruct (no_intersection A B) eqn:Hn.
    + unfold computeIoU in Heq. rewrite Hf, Hn in Heq. discriminate Heq.
    + destruct (computeIoU_division_strict A B Hsmall Hf Hn) as (_ & Hlt).
      rewrite Heq in Hlt. discriminate Hlt.
  - intros Hf. unfold computeIoU. rewrite Hf. reflexivity.
Qed.

Lemma computeIoU_one_iff_witness :
  (computeIoU (0, 0, 4, 4)%Z (2, 2, 4, 4)%Z == 1)%Q <->
  BBox_in_BBox (0, 0, 4, 4) (2, 2, 4, 4) || BBox_in_BBox (2, 2, 4, 4) (0, 0, 4, 4) = true.
Proof.
  apply (computeIoU_one_iff (0, 0, 4, 4) (2, 2, 4, 4)). reflexivity.
Defined.

Lemma contained_intersects (a b : BBox) :
  positive_size a -> BBox_in_BBox a b = true -> no_intersection a b = false.
Proof.
  destruct a as [[[x1 y1] w1] h1], b as [[[x2 y2] w2] h2].
  cbn [positive_size]. intros Hp Hin. apply BBox_in_BBox_coords in Hin.
  unfold no_intersection. apply orb_false_iff. split; apply Z.ltb_ge; lia.
Qed.

(** X3: for boxes of positive width and height whose union has fewer than
    [2 ^ 53] pixels, [computeIoU] returns 0 exactly when the boxes share no
    pixel. *)
Theorem computeIoU_zero_iff (A B : BBox) :
  positive_size A -> positive_size B ->
  Union_area A B < 2 ^ 53 ->
  ((computeIoU A B == 0)%Q <-> no_intersection A B = true).
Proof.
  intros HA HB Hsmall. split.
  - intros Heq. destruct (no_intersection A B) eqn:Hn; [reflexivity|].
    destruct (BBox_in_BBox A B || BBox_in_BBox B A) eqn:Hf.
    + unfold computeIoU in Heq. rewrite Hf in Heq. discriminate Heq.
    + destruct (computeIoU_division_strict A B Hsmall Hf Hn) as (Hlt & _).
      rewrite Heq in Hlt. discriminate Hlt.
  - intros Hn. unfold computeIoU.
    destruct (BBox_in_BBox A B) eqn:Hab.
    + rewrite (contained_intersects A B HA Hab) in Hn. discriminate Hn.
    + destruct (BBox_in_BBox B A) eqn:Hba.
      * rewrite no_intersection_comm, (contained_intersects B A HB Hba) in Hn.
        discriminate Hn.
      * cbn [orb]. rewrite Hn. reflexivity.
Qed.

Lemma computeIoU_zero_iff_witness :
  (computeIoU (0, 0, 2, 2)%Z (10, 10, 2, 2)%Z == 0)%Q <->
  no_intersection (0, 0, 2, 2) (10, 10, 2, 2) = true.
Proof.
  apply (computeIoU_zero_iff (0, 0, 2, 2) (10, 10, 2, 2)); simpl; lia.
Defined.

Lemma computeIoU_self (b : BBox) : positive_size b -> computeIoU b b = 1%Q.
Proof.
  intros Hp. unfold computeIoU.
  assert (H : BBox_in_BBox b b = true).
  { destruct b as [[[x y] w] h]. cbn [positive_size] in Hp.
    apply BBox_in_BBox_coords. lia. }
  rewrite H. reflexivity.
Qed.

(** ** The stages of [NMS] *)

Lemma subsequence_refl {A : Type} (l : list A) : subsequence l l.
Proof. induction l; [constructor|apply subsequence_keep; assumption]. Qed.

Lemma subsequence_trans {A : Type} (l1 l2 l3 : list A) :
  subsequence l1 l2 -> subsequence l2 l3 -> subsequence l1 l3.
Proof.
  intros H12 H23. revert l1 H12.
  induction H23 as [|a l2 l3 H IH|a l2 l3 H IH]; intros l1 H12.
  - exact H12.
  - constructor. apply IH. exact H12.
  - inversion H12; subst.
    + constructor. apply IH. assumption.
    + apply subsequence_keep. apply IH. assumption.
Qed.

Lemma subsequence_filter {A : Type} (f : A -> bool) (l : list A) :
  subsequence (filter f l) l.
Proof.
  induction l as [|a l IH]; cbn [filter]; [constructor|].
  destruct (f a); [apply subsequence_keep|apply subsequence_skip]; exact IH.
Qed.

Lemma subsequence_app {A : Type} (l1 l1' l2 l2' : list A) :
  subsequence l1 l1' -> subsequence l2 l2' -> subsequence (l1 ++ l2) (l1' ++ l2').
Proof.
  induction 1 as [|a l1 l1' H IH|a l1 l1' H IH]; intros H2; cbn [app].
  - exact H2.
  - apply subsequence_skip. apply IH. exact H2.
  - apply subsequence_keep. apply IH. exact H2.
Qed.

Lemma subsequence_app_l {A : Type} (l1 l2 l : list A) :
  subsequence (l1 ++ l2) l -> subsequence l1 l.
Proof.
  intros H. apply subsequence_trans with (l1 ++ l2); [|exact H].
  clear H. induction l1 as [|a l1 IH]; cbn [app].
  - induction l2 as [|b l2 IH]; [constructor|apply subsequence_skip; exact IH].
  - apply subsequence_keep. exact IH.
Qed.

Lemma subsequence_incl {A : Type} (l1 l2 : list A) :
  subsequence l1 l2 -> incl l1 l2.
Proof.
  induction 1 as [|a l1 l2 H IH|a l1 l2 H IH]; intros x Hx.
  - exact Hx.
  - right. apply IH. exact Hx.
  - destruct Hx as [<-|Hx]; [left; reflexivity|right; apply IH; exact Hx].
Qed.

Lemma subsequence_map {A B : Type} (f : A -> B) (l1 l2 : list A) :
  subsequence l1 l2 -> subsequence (map f l1) (map f l2).
Proof.
  induction 1; cbn [map];
    [constructor|apply subsequence_skip|apply subsequence_keep]; assumption.
Qed.

Lemma NMS_threshold_passes (rows : list Hit) (thr : option Q) (asc : bool) :
  NMS_threshold (Array2D rows) thr asc = Ok (Array2D (filter (passes thr asc) rows)).
Proof.
  destruct thr as [thr|].
  - rewrite NMS_threshold_rows. unfold passes. reflexivity.
  - cbn [passes NMS_threshold]. rewrite filter_true. reflexivity.
Qed.

Lemma fits_false (mo : Q) (t : BBox) (out : list BBox) :
  fits mo t out = false ->
  exists o, In o out /\ (mo < computeIoU t o)%Q.
Proof.
  unfold fits. induction out as [|b out IH]; cbn [forallb]; [discriminate|].
  intros H. apply andb_false_iff in H. destruct H as [H|H].
  - exists b. split; [left; reflexivity|].
    apply Qnot_le_lt. intros Hle. apply Qle_bool_iff in Hle. congruence.
  - destruct (IH H) as (o & Ho & Hlt). exists o. split; [right; exact Ho|exact Hlt].
Qed.

Lemma NMS_loop_stops (N : number) (mo : Q) (out rest : list BBox) (ToAppend : option bool) :
  Z_lt_number (Z.of_nat (length out)) N = false ->
  NMS_loop N mo out rest ToAppend = Ok out.
Proof.
  intros H. destruct rest as [|t rest].
  - apply NMS_loop_equation_1.
  - rewrite NMS_loop_equation_2, H. reflexivity.
Qed.

(** The invariant rule, with what holds when the loop stops: either no
    candidate is left, or the count is reached. *)
Lemma NMS_loop_rule_end (N : number) (mo : Q) (I : list BBox -> list BBox -> Prop) :
  (forall out t rest,
      out <> [] -> I out (t :: rest) ->
      Z_lt_number (Z.of_nat (length out)) N = true ->
      if fits mo t out then I (out ++ [t]) (delete_equal t rest)
      else I out (delete_equal t rest)) ->
  forall rest out ToAppend,
    out <> [] -> I out rest ->
    exists out',
      NMS_loop N mo out rest ToAppend = Ok out' /\ out' <> [] /\
      (I out' [] \/
       exists rest', I out' rest' /\ Z_lt_number (Z.of_nat (length out')) N = false).
Proof.
  intros Hstep rest.
  induction rest as [rest IH] using (induction_ltof1 _ (@length BBox)).
  unfold ltof in IH. intros out ToAppend Hne HI.
  destruct rest as [|t rest].
  - rewrite NMS_loop_equation_1. exists out.
    split; [reflexivity|]. split; [exact Hne|]. left. exact HI.
  - rewrite (NMS_loop_step N mo out t rest ToAppend Hne).
    destruct (Z_lt_number (Z.of_nat (length out)) N) eqn:Hlt.
    2:{ exists out. split; [reflexivity|]. split; [exact Hne|].
        right. exists (t :: rest). split; [exact HI|exact Hlt]. }
    specialize (Hstep out t rest Hne HI Hlt).
    assert (Hlen : (length (delete_equal t rest) < length (t :: rest))%nat).
    { rewrite <- delete_equal_cons. apply delete_equal_head. }
    destruct (fits mo t out).
    + apply IH; [exact Hlen| |exact Hstep]. destruct out; discriminate.
    + apply IH; [exact Hlen|exact Hne|exact Hstep].
Qed.

(** What the selection loop does from its initial state: a first box
    accepted, the others as candidates. *)
Lemma NMS_loop_facts (N : number) (mo : Q) (b0 : BBox) (rest0 : list BBox)
    (ToAppend : option bool) :
  exists tl',
    NMS_loop N mo [b0] rest0 ToAppend = Ok (b0 :: tl') /\
    subsequence tl' rest0 /\
    ForallOrdPairs (fun a b => (computeIoU b a <= mo)%Q) (b0 :: tl') /\
    ((forall b, In b rest0 ->
        In b (b0 :: tl') \/ exists o, In o (b0 :: tl') /\ (mo < computeIoU b o)%Q) \/
     Z_lt_number (Z.of_nat (length (b0 :: tl'))) N = false).
Proof.
  set (R := fun a b : BBox => (computeIoU b a <= mo)%Q).
  set (Inv := fun out rest : list BBox =>
                (exists tl', out = b0 :: tl' /\ subsequence (tl' ++ rest) rest0) /\
                ForallOrdPairs R out /\
                (forall b, In b rest0 ->
                   In b out \/ In b rest \/
                   exists o, In o out /\ (mo < computeIoU b o)%Q)).
  destruct (NMS_loop_rule_end N mo Inv) with
    (rest := rest0) (out := [b0]) (ToAppend := ToAppend)
    as (out' & Hrun & _ & Hend).
  - intros out t rest Hne ((tl' & -> & Hsub) & Hf & Hcov) Hlt.
    assert (Hsub' : subsequence (tl' ++ delete_equal t rest) rest0).
    { apply subsequence_trans with (tl' ++ t :: rest); [|exact Hsub].
      apply subsequence_app; [apply subsequence_refl|].
      apply subsequence_skip. apply subsequence_filter. }
    destruct (fits mo t (b0 :: tl')) eqn:Hfit.
    + split; [|split].
      * exists (tl' ++ [t]). split; [reflexivity|].
        rewrite <- app_assoc. cbn [app].
        apply subsequence_trans with (tl' ++ t :: rest); [|exact Hsub].
        apply subsequence_app; [apply subsequence_refl|].
        apply subsequence_keep. apply subsequence_filter.
      * apply ForallOrdPairs_snoc; [exact Hf|apply fits_Forall; exact Hfit].
      * intros b Hb. destruct (Hcov b Hb) as [Ho|[Hr|(o & Ho & Hlt')]].
        -- left. apply in_or_app. left. exact Ho.
        -- destruct (BBox_eqb b t) eqn:E.
           ++ apply BBox_eqb_eq in E. subst b. left. apply in_or_app. right.
              left. reflexivity.
           ++ right. left. apply delete_equal_In. split.
              ** destruct Hr as [<-|Hr]; [rewrite BBox_eqb_refl in E; discriminate|exact Hr].
              ** intros ->. rewrite BBox_eqb_refl in E. discriminate.
        -- right. right. exists o. split; [apply in_or_app; left; exact Ho|exact Hlt'].
    + split; [|split].
      * exists tl'. split; [reflexivity|exact Hsub'].
      * exact Hf.
      * intros b Hb. destruct (Hcov b Hb) as [Ho|[Hr|Hc]]; [left; exact Ho| |right; right; exact Hc].
        destruct (BBox_eqb b t) eqn:E.
        -- apply BBox_eqb_eq in E. subst b. right. right. apply fits_false. exact Hfit.
        -- right. left. apply delete_equal_In. split.
           ++ destruct Hr as [<-|Hr]; [rewrite BBox_eqb_refl in E; discriminate|exact Hr].
           ++ intros ->. rewrite BBox_eqb_refl in E. discriminate.
  - discriminate.
  - split; [|split].
    + exists []. split; [reflexivity|apply subsequence_refl].
    + constructor; constructor.
    + intros b Hb. right. left. exact Hb.
  - assert (Hshape : exists tl' rest', out' = b0 :: tl' /\ subsequence (tl' ++ rest') rest0 /\
                                       ForallOrdPairs R out').
    { destruct Hend as [((tl' & -> & Hsub) & Hf & _)|(rest' & ((tl' & -> & Hsub) & Hf & _) & _)];
        eauto 6. }
    destruct Hshape as (tl' & rest' & -> & Hsub & Hf).
    exists tl'. split; [exact Hrun|]. split; [apply (subsequence_app_l _ _ _ Hsub)|].
    split; [exact Hf|].
    destruct Hend as [(_ & _ & Hcov)|(rest'' & _ & Hstop)]; [left|right; exact Hstop].
    intros b Hb. destruct (Hcov b Hb) as [Ho|[[]|Hc]]; [left; exact Ho|right; exact Hc].
Qed.

Lemma ForallOrdPairs_impl_in {A : Type} (R R' : A -> A -> Prop) (l : list A) :
  (forall a b, In a l -> In b l -> R a b -> R' a b) ->
  ForallOrdPairs R l -> ForallOrdPairs R' l.
Proof.
  intros Himp H. induction H as [|a l Ha Hl IH]; constructor.
  - apply Forall_forall. intros b Hb. rewrite Forall_forall in Ha.
    apply Himp; [left; reflexivity|right; exact Hb|apply Ha; exact Hb].
  - apply IH. intros x y Hx Hy. apply Himp; right; assumption.
Qed.

Section Stages.

Variable argsort : list Q -> list nat.
Hypothesis argsort_ok : argsort_spec argsort.

Lemma sorted_rows_sorted (rows : list Hit) :
  StronglySorted (fun a b => (coeff a <= coeff b)%Q)
    (map (fun i => nth i rows hit_a) (argsort (map coeff rows))).
Proof.
  destruct (argsort_ok (map coeff rows)) as [_ Hs].
  pose proof (argsort_in_range argsort argsort_ok (map coeff rows)) as Hr.
  rewrite Forall_forall in Hr. rewrite length_map in Hr.
  revert Hs. apply StronglySorted_map_in.
  intros i j Hi Hj Hij.
  rewrite (nth_indep _ 0%Q (coeff hit_a)) in Hij by (rewrite length_map; auto).
  rewrite (nth_indep _ 0%Q (coeff hit_a)) in Hij by (rewrite length_map; auto).
  rewrite !map_nth in Hij. exact Hij.
Qed.

(** [NMS] on a table with two axes: the rows that pass the threshold, put
    in rank order, feed the selection loop. *)
Lemma NMS_stages (rows : list Hit) (thr : option Q) (asc : bool) (N : number) (mo : Q) :
  exists sorted,
    Permutation sorted (filter (passes thr asc) rows) /\
    StronglySorted (ranks_before asc) sorted /\
    NMS argsort (Array2D rows) thr asc N mo =
    (out <- NMS_loop N mo (map bbox (firstn 1 sorted)) (map bbox (skipn 1 sorted)) None ;;
     Ok (Array1D out)).
Proof.
  pose proof (NMS_threshold_passes rows thr asc) as Hk.
  pose proof (NMS_sort_rows argsort argsort_ok (filter (passes thr asc) rows) asc) as Hs.
  cbv zeta in Hs.
  pose proof (sorted_rows_perm argsort argsort_ok (filter (passes thr asc) rows)) as Hp.
  pose proof (sorted_rows_sorted (filter (passes thr asc) rows)) as Hso.
  eexists. split; [|split; [|apply (NMS_unfold argsort rows thr asc N mo _ _ Hk Hs)]].
  - destruct asc; [exact Hp|]. rewrite <- Permutation_rev. exact Hp.
  - destruct asc; unfold ranks_before; [exact Hso|].
    apply StronglySorted_rev in Hso. exact Hso.
Qed.

(** X4: when at least one row passes the threshold, the first box [NMS]
    returns is the box of a best-ranked row: no row that passes the threshold
    has a strictly better score.  This holds for every [N_object] and
    [maxOverlap]. *)
Theorem NMS_best_first (rows : list Hit) (scoreThreshold : option Q)
    (sortAscending : bool) (N_object : number) (maxOverlap : Q) (d0 : Hit) :
  In d0 rows -> passes scoreThreshold sortAscending d0 = true ->
  exists h out',
    NMS argsort (Array2D rows) scoreThreshold sortAscending N_object maxOverlap
      = Ok (Array1D (bbox h :: out')) /\
    In h rows /\ passes scoreThreshold sortAscending h = true /\
    forall d, In d rows -> passes scoreThreshold sortAscending d = true ->
              ranks_before sortAscending h d.
Proof.
  intros Hd0 Hp0.
  destruct (NMS_stages rows scoreThreshold sortAscending N_object maxOverlap)
    as (sorted & Hperm & Hsorted & Hrun).
  destruct sorted as [|h sorted].
  - exfalso. apply Permutation_nil in Hperm.
    assert (Hin : In d0 (filter (passes scoreThreshold sortAscending) rows))
      by (apply filter_In; split; assumption).
    rewrite Hperm in Hin. exact Hin.
  - cbn [firstn skipn map] in Hrun.
    destruct (NMS_loop_facts N_object maxOverlap (bbox h) (map bbox sorted) None)
      as (tl' & Hloop & _).
    rewrite Hloop in Hrun. cbn [rbind] in Hrun.
    exists h, tl'. split; [exact Hrun|].
    assert (Hh : In h (filter (passes scoreThreshold sortAscending) rows))
      by (apply (Permutation_in _ Hperm); left; reflexivity).
    apply filter_In in Hh. split; [tauto|]. split; [tauto|].
    intros d Hd Hpd.
    assert (Hin : In d (h :: sorted)).
    { apply (Permutation_in _ (Permutation_sym Hperm)). apply filter_In. tauto. }
    destruct Hin as [<-|Hin].
    + unfold ranks_before. destruct sortAscending; apply Qle_refl.
    + inversion Hsorted as [|? ? _ Hall]; subst.
      rewrite Forall_forall in Hall. apply Hall. exact Hin.
Qed.

(** X5: [NMS] does not check [N_object].  With an integer count of 1, 0 or
    a negative one, and at least one row passing the threshold, it returns
    exactly one box. *)
Theorem NMS_count_not_checked (rows : list Hit) (scoreThreshold : option Q)
    (sortAscending : bool) (n : Z) (maxOverlap : Q) (d0 : Hit) :
  n <= 1 ->
  In d0 rows -> passes scoreThreshold sortAscending d0 = true ->
  exists b,
    NMS argsort (Array2D rows) scoreThreshold sortAscending (Int n) maxOverlap
      = Ok (Array1D [b]).
Proof.
  intros Hn Hd0 Hp0.
  destruct (NMS_stages rows scoreThreshold sortAscending (Int n) maxOverlap)
    as (sorted & Hperm & _ & Hrun).
  destruct sorted as [|h sorted].
  - exfalso. apply Permutation_nil in Hperm.
    assert (Hin : In d0 (filter (passes scoreThreshold sortAscending) rows))
      by (apply filter_In; split; assumption).
    rewrite Hperm in Hin. exact Hin.
  - cbn [firstn skipn map] in Hrun.
    rewrite NMS_loop_stops in Hrun.
    + exists (bbox h). exact Hrun.
    + cbn [Z_lt_number length]. apply Z.ltb_ge. lia.
Qed.

(** X6: with an unbounded [N_object] the selection is maximal: the box of
    every row that passes the threshold is returned, or overlaps a returned
    box by more than [maxOverlap]. *)
Theorem NMS_maximal (rows : list Hit) (scoreThreshold : option Q)
    (sortAscending : bool) (maxOverlap : Q) :
  exists out,
    NMS argsort (Array2D rows) scoreThreshold sortAscending Inf maxOverlap
      = Ok (Array1D out) /\
    forall d, In d rows -> passes scoreThreshold sortAscending d = true ->
      In (bbox d) out \/
      exists o, In o out /\ (maxOverlap < computeIoU (bbox d) o)%Q.
Proof.
  destruct (NMS_stages rows scoreThreshold sortAscending Inf maxOverlap)
    as (sorted & Hperm & _ & Hrun).
  destruct sorted as [|h sorted].
  - exists []. cbn [firstn skipn map] in Hrun. rewrite NMS_loop_equation_1 in Hrun.
    split; [exact Hrun|]. intros d Hd Hp. exfalso.
    apply Permutation_nil in Hperm.
    assert (Hin : In d (filter (passes scoreThreshold sortAscending) rows))
      by (apply filter_In; split; assumption).
    rewrite Hperm in Hin. exact Hin.
  - cbn [firstn skipn map] in Hrun.
    destruct (NMS_loop_facts Inf maxOverlap (bbox h) (map bbox sorted) None)
      as (tl' & Hloop & _ & _ & Hend).
    rewrite Hloop in Hrun. cbn [rbind] in Hrun.
    exists (bbox h :: tl'). split; [exact Hrun|].
    destruct Hend as [Hcov|Hstop]; [|discriminate Hstop].
    intros d Hd Hp.
    assert (Hin : In d (h :: sorted)).
    { apply (Permutation_in _ (Permutation_sym Hperm)). apply filter_In. tauto. }
    destruct Hin as [<-|Hin]; [left; left; reflexivity|].
    apply Hcov. apply in_map. exact Hin.
Qed.

(** X7: the boxes [NMS] returns come in rank order: they are a subsequence
    of the box column of the rows that pass the threshold, sorted by score
    in the direction [sortAscending] asks for. *)
Theorem NMS_keeps_rank_order (rows : list Hit) (scoreThreshold : option Q)
    (sortAscending : bool) (N_object : number) (maxOverlap : Q) :
  exists sorted out,
    NMS argsort (Array2D rows) scoreThreshold sortAscending N_object maxOverlap
      = Ok (Array1D out) /\
    Permutation sorted (filter (passes scoreThreshold sortAscending) rows) /\
    StronglySorted (ranks_before sortAscending) sorted /\
    subsequence out (map bbox sorted).
Proof.
  destruct (NMS_stages rows scoreThreshold sortAscending N_object maxOverlap)
    as (sorted & Hperm & Hsorted & Hrun).
  exists sorted.
  destruct sorted as [|h sorted].
  - exists []. cbn [firstn skipn map] in Hrun. rewrite NMS_loop_equation_1 in Hrun.
    split; [exact Hrun|]. split; [exact Hperm|]. split; [exact Hsorted|constructor].
  - cbn [firstn skipn map] in Hrun.
    destruct (NMS_loop_facts N_object maxOverlap (bbox h) (map bbox sorted) None)
      as (tl' & Hloop & Hsub & _).
    rewrite Hloop in Hrun. cbn [rbind] in Hrun.
    exists (bbox h :: tl'). split; [exact Hrun|]. split; [exact Hperm|].
    split; [exact Hsorted|]. cbn [map]. apply subsequence_keep. exact Hsub.
Qed.

(** X8: when [maxOverlap] is below 1 and the boxes of the rows that pass
    the threshold have positive width and height, [NMS] returns no box
    twice: a second hit on the same box, from whatever template, is
    suppressed. *)
Theorem NMS_returns_distinct_boxes (rows : list Hit) (scoreThreshold : option Q)
    (sortAscending : bool) (N_object : number) (maxOverlap : Q) :
  (maxOverlap < 1)%Q ->
  (forall d, In d rows -> passes scoreThreshold sortAscending d = true ->
             positive_size (bbox d)) ->
  exists out,
    NMS argsort (Array2D rows) scoreThreshold sortAscending N_object maxOverlap
      = Ok (Array1D out) /\
    NoDup out.
Proof.
  intros Hmo Hpos.
  destruct (NMS_stages rows scoreThreshold sortAscending N_object maxOverlap)
    as (sorted & Hperm & _ & Hrun).
  destruct sorted as [|h sorted].
  - exists []. cbn [firstn skipn map] in Hrun. rewrite NMS_loop_equation_1 in Hrun.
    split; [exact Hrun|constructor].
  - cbn [firstn skipn map] in Hrun.
    destruct (NMS_loop_facts N_object maxOverlap (bbox h) (map bbox sorted) None)
      as (tl' & Hloop & Hsub & Hfop & _).
    rewrite Hloop in Hrun. cbn [rbind] in Hrun.
    exists (bbox h :: tl'). split; [exact Hrun|].
    apply NoDup_iff_ForallOrdPairs. revert Hfop. apply ForallOrdPairs_impl_in.
    intros a b Ha _ Hab Heq. subst b.
    assert (Hin : In a (map bbox (h :: sorted))).
    { cbn [map]. destruct Ha as [<-|Ha]; [left; reflexivity|right].
      apply (subsequence_incl _ _ Hsub). exact Ha. }
    apply in_map_iff in Hin. destruct Hin as (d & <- & Hd).
    apply (Permutation_in _ Hperm) in Hd. apply filter_In in Hd.
    rewrite (computeIoU_self (bbox d)) in Hab by (apply Hpos; tauto).
    apply (Qlt_not_le _ _ Hmo). exact Hab.
Qed.

End Stages.

Lemma NMS_best_first_witness :
  exists h out',
    NMS insertion_argsort (Array2D [hit_a; hit_b]) (Some (1 # 4)) false (Int 2) (1 # 4)
      = Ok (Array1D (bbox h :: out')) /\
    In h [hit_a; hit_b] /\ passes (Some (1 # 4)) false h = true /\
    forall d, In d [hit_a; hit_b] -> passes (Some (1 # 4)) false d = true ->
              ranks_before false h d.
Proof.
  apply (NMS_best_first insertion_argsort insertion_argsort_spec [hit_a; hit_b]
           (Some (1 # 4)) false (Int 2) (1 # 4) hit_a).
  - simpl. left. reflexivity.
  - reflexivity.
Defined.

Lemma NMS_count_not_checked_witness :
  exists b,
    NMS insertion_argsort (Array2D [hit_a; hit_b]) None true (Int 0) (1 # 4)
      = Ok (Array1D [b]).
Proof.
  apply (NMS_count_not_checked insertion_argsort insertion_argsort_spec [hit_a; hit_b]
           None true 0 (1 # 4) hit_a).
  - lia.
  - simpl. left. reflexivity.
  - reflexivity.
Defined.

Lemma NMS_maximal_witness :
  exists out,
    NMS insertion_argsort (Array2D [hit_a; hit_b]) None false Inf (1 # 4)
      = Ok (Array1D out) /\
    forall d, In d [hit_a; hit_b] -> passes None false d = true ->
      In (bbox d) out \/
      exists o, In o out /\ (1 # 4 < computeIoU (bbox d) o)%Q.
Proof.
  exact (NMS_maximal insertion_argsort insertion_argsort_spec [hit_a; hit_b]
           None false (1 # 4)).
Defined.

Lemma NMS_keeps_rank_order_witness :
  exists sorted out,
    NMS insertion_argsort (Array2D [hit_a; hit_b]) None true Inf (1 # 4)
      = Ok (Array1D out) /\
    Permutation sorted (filter (passes None true) [hit_a; hit_b]) /\
    StronglySorted (ranks_before true) sorted /\
    subsequence out (map bbox sorted).
Proof.
  exact (NMS_keeps_rank_order insertion_argsort insertion_argsort_spec [hit_a; hit_b]
           None true Inf (1 # 4)).
Defined.

Lemma NMS_returns_distinct_boxes_witness :
  exists out,
    NMS insertion_argsort (Array2D [hit_a; hit_a; hit_b]) None false Inf (1 # 4)
      = Ok (Array1D out) /\
    NoDup out.
Proof.
  apply (NMS_returns_distinct_boxes insertion_argsort insertion_argsort_spec
           [hit_a; hit_a; hit_b] None false Inf (1 # 4)).
  - reflexivity.
  - intros d Hd _. simpl in Hd.
    destruct Hd as [<-|[<-|[<-|[]]]]; simpl; lia.
Defined.

(** ** The similarity call *)

Section ScoreMap.

Variable ext : External.

Lemma computeScoreMap_cases (template image : Image) (method : Z) :
  computeScoreMap ext template image method =
  if dtype_eqb (img_dtype template) float64 || dtype_eqb (img_dtype image) float64
  then ([], Raise ValueError)
  else ([call_for image method (String.EmptyString, template)],
        cv2_matchTemplate ext (fst (same_depth template image))
                          (snd (same_depth template image)) method).
Proof.
  unfold computeScoreMap, call_for, same_depth. cbn [snd].
  destruct (dtype_eqb (img_dtype template) float64 || dtype_eqb (img_dtype image) float64);
    [reflexivity|].
  destruct (negb (dtype_eqb (img_dtype template) uint8 && dtype_eqb (img_dtype image) uint8));
    reflexivity.
Qed.

Lemma dtype_eqb_eq (a b : dtype) : dtype_eqb a b = true <-> a = b.
Proof. destruct a, b; cbn; split; intros H; try reflexivity; discriminate H. Qed.

(** X9: [computeScoreMap] refuses a 64-bit array with [ValueError] before
    it calls the similarity function; otherwise it calls it exactly once,
    on two arrays of one and the same depth (both 8-bit, or both converted to
    32-bit floats) that hold the pixels of the template and of the image. *)
Theorem computeScoreMap_same_depth (template image : Image) (method : Z) :
  (img_dtype template = float64 \/ img_dtype image = float64 ->
   computeScoreMap ext template image method = ([], Raise ValueError)) /\
  (img_dtype template <> float64 -> img_dtype image <> float64 ->
   exists a b,
     computeScoreMap ext template image method
       = ([Call_matchTemplate a b method], cv2_matchTemplate ext a b method) /\
     img_dtype a = img_dtype b /\
     (img_dtype a = uint8 \/ img_dtype a = float32) /\
     pixels a = pixels template /\ pixels b = pixels image).
Proof.
  split.
  - intros H. rewrite computeScoreMap_cases.
    replace (dtype_eqb (img_dtype template) float64 || dtype_eqb (img_dtype image) float64)
      with true; [reflexivity|].
    symmetry. apply orb_true_iff.
    destruct H as [H|H]; [left|right]; apply dtype_eqb_eq; exact H.
  - intros Ht Hi. unfold computeScoreMap.
    replace (dtype_eqb (img_dtype template) float64) with false
      by (symmetry; apply not_true_iff_false; rewrite dtype_eqb_eq; exact Ht).
    replace (dtype_eqb (img_dtype image) float64) with false
      by (symmetry; apply not_true_iff_false; rewrite dtype_eqb_eq; exact Hi).
    cbn [orb].
    destruct (dtype_eqb (img_dtype template) uint8) eqn:E1;
      destruct (dtype_eqb (img_dtype image) uint8) eqn:E2; cbn [andb negb];
      eexists; eexists; (split; [reflexivity|]); cbn [np_float32 img_dtype pixels];
      try (split; [reflexivity|split; [right; reflexivity|split; reflexivity]]).
    apply dtype_eqb_eq in E1. apply dtype_eqb_eq in E2.
    split; [congruence|]. split; [left; exact E1|split; reflexivity].
Qed.

End ScoreMap.

(** ** The loop over the templates *)

Section TemplateLoop.

Variable ext : External.

(** One pass of the loop body, outcome by outcome. *)
Lemma findMatches_loop_step (name : String.string) (template : Image)
    (listTemplates : list (String.string * Image)) (image : Image) (method : Z)
    (N : number) (thr : Q) (xOffset yOffset : Z) (Peaks : option (list (Z * Z)))
    (listHit : list Hit) :
  findMatches_loop ext ((name, template) :: listTemplates) image method N thr
                   xOffset yOffset Peaks listHit =
  if dtype_eqb (img_dtype template) float64 || dtype_eqb (img_dtype image) float64
  then ([], Raise ValueError)
  else
    let c := call_for image method (name, template) in
    match cv2_matchTemplate ext (fst (same_depth template image))
                            (snd (same_depth template image)) method with
    | Raise e => ([c], Raise e)
    | Ok corrMap =>
        match find_Peaks ext corrMap method N thr Peaks with
        | None => ([c], Raise UnboundLocalError)
        | Some peaks =>
            match append_hits name corrMap xOffset yOffset (snd (shape_2 template))
                              (fst (shape_2 template)) peaks listHit with
            | Raise e => ([c], Raise e)
            | Ok listHit' =>
                let rest := findMatches_loop ext listTemplates image method N thr
                              xOffset yOffset (Some peaks) listHit' in
                (c :: fst rest, snd rest)
            end
        end
    end.
Proof.
  cbn [findMatches_loop]. rewrite computeScoreMap_cases.
  destruct (dtype_eqb (img_dtype template) float64 || dtype_eqb (img_dtype image) float64);
    [reflexivity|].
  cbv zeta.
  replace (call_for image method (String.EmptyString, template))
    with (call_for image method (name, template)) by reflexivity.
  destruct (cv2_matchTemplate ext _ _ method) as [corrMap|e]; [|reflexivity].
  rewrite mbind_Ok.
  destruct (shape_2 template) as [height width]. cbn [fst snd].
  destruct (find_Peaks ext corrMap method N thr Peaks) as [peaks|]; [|reflexivity].
  unfold mlift.
  destruct (append_hits name corrMap xOffset yOffset width height peaks listHit)
    as [listHit'|e].
  - rewrite mbind_Ok. cbn [app fst snd]. reflexivity.
  - reflexivity.
Qed.

Lemma append_hits_Forall (P : Hit -> Prop) (name : String.string) (corrMap : ScoreMap)
    (xOffset yOffset width height : Z) (peaks : list (Z * Z)) :
  (forall x y c, P (mkHit name (x, y, width, height) c)) ->
  forall listHit listHit',
    Forall P listHit ->
    append_hits name corrMap xOffset yOffset width height peaks listHit = Ok listHit' ->
    Forall P listHit'.
Proof.
  intros HP. induction peaks as [|peak peaks IH]; intros listHit listHit' HL Hrun;
    cbn [append_hits] in Hrun.
  - injection Hrun as <-. exact HL.
  - destruct (map_at corrMap peak) as [c|e]; cbn [rbind] in Hrun; [|discriminate Hrun].
    apply (IH _ listHit' (proj2 (Forall_app P listHit _)
                            (conj HL (Forall_cons _ (HP _ _ c) (Forall_nil P)))) Hrun).
Qed.

Lemma append_hits_length (name : String.string) (corrMap : ScoreMap)
    (xOffset yOffset width height : Z) (peaks : list (Z * Z)) :
  forall listHit listHit',
    append_hits name corrMap xOffset yOffset width height peaks listHit = Ok listHit' ->
    length listHit' = (length listHit + length peaks)%nat.
Proof.
  induction peaks as [|peak peaks IH]; intros listHit listHit' Hrun;
    cbn [append_hits] in Hrun.
  - injection Hrun as <-. cbn [length]. lia.
  - destruct (map_at corrMap peak) as [c|e]; cbn [rbind] in Hrun; [|discriminate Hrun].
    rewrite (IH _ _ Hrun), length_app. cbn [length]. lia.
Qed.

(** The calls are made in the order of the templates and stop at the first
    failure. *)
Lemma findMatches_loop_log (listTemplates : list (String.string * Image)) (image : Image)
    (method : Z) (N : number) (thr : Q) (xOffset yOffset : Z) :
  forall (Peaks : option (list (Z * Z))) (listHit : list Hit) log r,
    findMatches_loop ext listTemplates image method N thr xOffset yOffset Peaks listHit
      = (log, r) ->
    exists k,
      (k <= length listTemplates)%nat /\
      log = map (call_for image method) (firstn k listTemplates) /\
      (forall listHit', r = Ok listHit' -> k = length listTemplates).
Proof.
  induction listTemplates as [|[name template] listTemplates IH];
    intros Peaks listHit log r Hrun.
  - cbn in Hrun. injection Hrun as <- <-. exists 0%nat.
    split; [cbn; lia|]. split; [reflexivity|]. reflexivity.
  - rewrite findMatches_loop_step in Hrun.
    assert (Hzero : forall e, (log, r) = ([], Raise e) ->
              exists k, (k <= length ((name, template) :: listTemplates))%nat /\
                log = map (call_for image method) (firstn k ((name, template) :: listTemplates)) /\
                (forall listHit', r = Ok listHit' ->
                   k = length ((name, template) :: listTemplates))).
    { intros e He. injection He as -> ->. exists 0%nat.
      split; [cbn; lia|]. split; [reflexivity|]. intros ? Hd. discriminate Hd. }
    assert (Hone : forall e, (log, r) = ([call_for image method (name, template)], Raise e) ->
              exists k, (k <= length ((name, template) :: listTemplates))%nat /\
                log = map (call_for image method) (firstn k ((name, template) :: listTemplates)) /\
                (forall listHit', r = Ok listHit' ->
                   k = length ((name, template) :: listTemplates))).
    { intros e He. injection He as -> ->. exists 1%nat.
      split; [cbn; lia|]. split; [reflexivity|]. intros ? Hd. discriminate Hd. }
    destruct (dtype_eqb (img_dtype template) float64 || dtype_eqb (img_dtype image) float64);
      [apply (Hzero ValueError); symmetry; exact Hrun|].
    cbv zeta in Hrun.
    destruct (cv2_matchTemplate ext _ _ method) as [corrMap|e];
      [|apply (Hone e); symmetry; exact Hrun].
    destruct (find_Peaks ext corrMap method N thr Peaks) as [peaks|];
      [|apply (Hone UnboundLocalError); symmetry; exact Hrun].
    destruct (append_hits name corrMap xOffset yOffset _ _ peaks listHit) as [listHit'|e];
      [|apply (Hone e); symmetry; exact Hrun].
    destruct (findMatches_loop ext listTemplates image method N thr xOffset yOffset
                (Some peaks) listHit') as [log' r'] eqn:Hrest.
    cbn [fst snd] in Hrun. injection Hrun as <- <-.
    destruct (IH _ _ _ _ Hrest) as (k & Hk & Hlog & Hok).
    exists (S k). split; [cbn [length]; lia|]. split.
    + cbn [firstn map]. rewrite Hlog. reflexivity.
    + intros listHit'' Hr. cbn [length]. f_equal. apply (Hok listHit''). exact Hr.
Qed.

Lemma findMatches_loop_hits (all : list (String.string * Image))
    (listTemplates : list (String.string * Image)) (image : Image)
    (method : Z) (N : number) (thr : Q) (xOffset yOffset : Z) :
  incl listTemplates all ->
  forall (Peaks : option (list (Z * Z))) (listHit : list Hit) log listHit',
    Forall (fun h => exists entry, In entry all /\ hit_of_template entry h) listHit ->
    findMatches_loop ext listTemplates image method N thr xOffset yOffset Peaks listHit
      = (log, Ok listHit') ->
    Forall (fun h => exists entry, In entry all /\ hit_of_template entry h) listHit'.
Proof.
  induction listTemplates as [|[name template] listTemplates IH];
    intros Hincl Peaks listHit log listHit' HL Hrun.
  - cbn in Hrun. injection Hrun as _ <-. exact HL.
  - rewrite findMatches_loop_step in Hrun.
    destruct (dtype_eqb (img_dtype template) float64 || dtype_eqb (img_dtype image) float64);
      [discriminate Hrun|].
    cbv zeta in Hrun.
    destruct (cv2_matchTemplate ext _ _ method) as [corrMap|e]; [|discriminate Hrun].
    destruct (find_Peaks ext corrMap method N thr Peaks) as [peaks|]; [|discriminate Hrun].
    destruct (append_hits name corrMap xOffset yOffset _ _ peaks listHit)
      as [listHit1|e] eqn:Happ; [|discriminate Hrun].
    destruct (findMatches_loop ext listTemplates image method N thr xOffset yOffset
                (Some peaks) listHit1) as [log' r'] eqn:Hrest.
    cbn [fst snd] in Hrun. injection Hrun as _ ->.
    assert (HP : forall x y c,
               exists entry, In entry all /\
                 hit_of_template entry
                   (mkHit name (x, y, snd (shape_2 template), fst (shape_2 template)) c)).
    { intros x y c. exists (name, template). split; [apply Hincl; left; reflexivity|].
      split; [reflexivity|]. cbn [bbox snd]. destruct (shape_2 template); reflexivity. }
    apply (IH (fun e He => Hincl e (or_intror He)) _ _ _ _
              (append_hits_Forall _ name corrMap xOffset yOffset _ _ peaks
                 HP listHit listHit1 HL Happ) Hrest).
Qed.

Lemma findMatches_result (listTemplates : list (String.string * Image)) (image : Image)
    (method : Z) (N : number) (thr : Q) (searchBox : option (Z * Z * Z * Z))
    (log : list event) (table : ndarray) :
  findMatches ext listTemplates image method N thr searchBox = (log, Ok table) ->
  check_N_object N = Ok tt /\
  exists listHit,
    findMatches_loop ext listTemplates (search_image image searchBox) method N thr
      (fst (search_offset searchBox)) (snd (search_offset searchBox)) None []
      = (log, Ok listHit) /\
    table = np_asarray listHit.
Proof.
  intros Hrun.
  destruct (check_N_object N) as [[]|e] eqn:Hc.
  - split; [reflexivity|].
    rewrite (findMatches_unfold ext _ _ _ _ _ _ Hc) in Hrun.
    destruct (findMatches_loop ext listTemplates (search_image image searchBox) method N thr
                (fst (search_offset searchBox)) (snd (search_offset searchBox)) None [])
      as [log' [listHit|e]].
    + rewrite mbind_Ok in Hrun. cbn [mret fst snd] in Hrun. rewrite app_nil_r in Hrun.
      injection Hrun as <- <-. exists listHit. split; reflexivity.
    + rewrite mbind_Raise in Hrun. discriminate Hrun.
  - rewrite (findMatches_checks_first ext _ _ _ _ _ _ e Hc) in Hrun. discriminate Hrun.
Qed.

(** X10: a successful [findMatches] has called the similarity function once
    per template, in the order of the list, each time on the template and
    the search image (or its crop); a failing one has made the calls of a
    prefix of the list and none after the failure. *)
Theorem findMatches_calls_in_order (listTemplates : list (String.string * Image))
    (image : Image) (method : Z) (N_object : number) (score_threshold : Q)
    (searchBox : option (Z * Z * Z * Z)) (log : list event) (r : result ndarray) :
  findMatches ext listTemplates image method N_object score_threshold searchBox = (log, r) ->
  exists k,
    (k <= length listTemplates)%nat /\
    log = map (call_for (search_image image searchBox) method) (firstn k listTemplates) /\
    (forall table, r = Ok table ->
       log = map (call_for (search_image image searchBox) method) listTemplates).
Proof.
  intros Hrun.
  destruct (check_N_object N_object) as [[]|e] eqn:Hc.
  - rewrite (findMatches_unfold ext _ _ _ _ _ _ Hc) in Hrun.
    destruct (findMatches_loop ext listTemplates (search_image image searchBox) method
                N_object score_threshold (fst (search_offset searchBox))
                (snd (search_offset searchBox)) None []) as [log' r'] eqn:Hloop.
    destruct (findMatches_loop_log _ _ _ _ _ _ _ _ _ _ _ Hloop) as (k & Hk & Hlog & Hok).
    exists k. split; [exact Hk|].
    destruct r' as [listHit|e].
    + rewrite mbind_Ok in Hrun. cbn [mret fst snd] in Hrun. rewrite app_nil_r in Hrun.
      injection Hrun as <- <-. split; [exact Hlog|].
      intros table _. rewrite Hlog, (Hok listHit eq_refl), firstn_all. reflexivity.
    + rewrite mbind_Raise in Hrun. injection Hrun as <- <-. split; [exact Hlog|].
      intros table Hd. discriminate Hd.
  - rewrite (findMatches_checks_first ext _ _ _ _ _ _ e Hc) in Hrun.
    injection Hrun as <- <-. exists 0%nat. split; [lia|]. split; [reflexivity|].
    intros table Hd. discriminate Hd.
Qed.

(** X11: every hit of the table [findMatches] returns carries the name of
    one of the templates and a box whose width and height are those of that
    template; the table has a single axis only when it has no hit. *)
Theorem findMatches_hits_of_templates (listTemplates : list (String.string * Image))
    (image : Image) (method : Z) (N_object : number) (score_threshold : Q)
    (searchBox : option (Z * Z * Z * Z)) (log : list event) (table : ndarray) :
  findMatches ext listTemplates image method N_object score_threshold searchBox
    = (log, Ok table) ->
  match table with
  | Array2D rows =>
      rows <> [] /\
      forall h, In h rows ->
        exists entry, In entry listTemplates /\ hit_of_template entry h
  | Array1D items => items = []
  end.
Proof.
  intros Hrun. destruct (findMatches_result _ _ _ _ _ _ _ _ Hrun) as (_ & listHit & Hloop & ->).
  pose proof (findMatches_loop_hits listTemplates listTemplates _ _ _ _ _ _
                (incl_refl _) None [] log listHit (Forall_nil _) Hloop) as HF.
  destruct listHit as [|h0 listHit]; cbn [np_asarray]; [reflexivity|].
  split; [discriminate|]. rewrite Forall_forall in HF. exact HF.
Qed.

Lemma findMatches_loop_single_thr (listTemplates : list (String.string * Image))
    (image : Image) (method : Z) (thr1 thr2 : Q) (xOffset yOffset : Z) :
  forall (Peaks : option (list (Z * Z))) (listHit : list Hit),
    findMatches_loop ext listTemplates image method (Int 1) thr1 xOffset yOffset Peaks listHit
    = findMatches_loop ext listTemplates image method (Int 1) thr2 xOffset yOffset Peaks listHit.
Proof.
  induction listTemplates as [|[name template] listTemplates IH]; intros Peaks listHit.
  - reflexivity.
  - rewrite !findMatches_loop_step.
    destruct (dtype_eqb (img_dtype template) float64 || dtype_eqb (img_dtype image) float64);
      [reflexivity|].
    cbv zeta.
    destruct (cv2_matchTemplate ext _ _ method) as [corrMap|e]; [|reflexivity].
    replace (find_Peaks ext corrMap method (Int 1) thr2 Peaks)
      with (find_Peaks ext corrMap method (Int 1) thr1 Peaks) by reflexivity.
    destruct (find_Peaks ext corrMap method (Int 1) thr1 Peaks) as [peaks|]; [|reflexivity].
    destruct (append_hits name corrMap xOffset yOffset _ _ peaks listHit) as [listHit'|e];
      [|reflexivity].
    rewrite IH. reflexivity.
Qed.

Lemma find_Peaks_single (corrMap : ScoreMap) (method : Z) (thr : Q)
    (Peaks : option (list (Z * Z))) :
  method = 1 \/ method = 3 \/ method = 5 ->
  exists p, find_Peaks ext corrMap method (Int 1) thr Peaks = Some [p].
Proof.
  intros Hm. unfold find_Peaks. cbn [number_eqb_1 Z.eqb Pos.eqb].
  destruct (cv2_minMaxLoc ext corrMap) as [[[minVal maxVal] minLoc] maxLoc].
  destruct Hm as [H|[H|H]]; subst method; cbn; eexists; reflexivity.
Qed.

Lemma findMatches_loop_single_count (listTemplates : list (String.string * Image))
    (image : Image) (method : Z) (thr : Q) (xOffset yOffset : Z) :
  method = 1 \/ method = 3 \/ method = 5 ->
  forall (Peaks : option (list (Z * Z))) (listHit : list Hit) log listHit',
    findMatches_loop ext listTemplates image method (Int 1) thr xOffset yOffset Peaks listHit
      = (log, Ok listHit') ->
    length listHit' = (length listHit + length listTemplates)%nat.
Proof.
  intros Hm.
  induction listTemplates as [|[name template] listTemplates IH];
    intros Peaks listHit log listHit' Hrun.
  - cbn in Hrun. injection Hrun as _ <-. cbn [length]. lia.
  - rewrite findMatches_loop_step in Hrun.
    destruct (dtype_eqb (img_dtype template) float64 || dtype_eqb (img_dtype image) float64);
      [discriminate Hrun|].
    cbv zeta in Hrun.
    destruct (cv2_matchTemplate ext _ _ method) as [corrMap|e]; [|discriminate Hrun].
    destruct (find_Peaks_single corrMap method thr Peaks Hm) as (p & Hp).
    rewrite Hp in Hrun.
    destruct (append_hits name corrMap xOffset yOffset _ _ [p] listHit)
      as [listHit1|e] eqn:Happ; [|discriminate Hrun].
    destruct (findMatches_loop ext listTemplates image method (Int 1) thr xOffset yOffset
                (Some [p]) listHit1) as [log' r'] eqn:Hrest.
    cbn [fst snd] in Hrun. injection Hrun as _ ->.
    rewrite (IH _ _ _ _ Hrest), (append_hits_length _ _ _ _ _ _ _ _ _ Happ).
    cbn [length]. lia.
Qed.

(** X12: with [N_object] equal to 1 the outcome of [findMatches] does not
    depend on [score_threshold], and for the methods 1, 3 and 5 a successful
    search returns exactly one hit per template. *)
Theorem findMatches_single_object (listTemplates : list (String.string * Image))
    (image : Image) (method : Z) (searchBox : option (Z * Z * Z * Z)) :
  (forall thr1 thr2,
      findMatches ext listTemplates image method (Int 1) thr1 searchBox
      = findMatches ext listTemplates image method (Int 1) thr2 searchBox) /\
  (method = 1 \/ method = 3 \/ method = 5 ->
   forall thr log table,
     findMatches ext listTemplates image method (Int 1) thr searchBox = (log, Ok table) ->
     len table = Z.of_nat (length listTemplates)).
Proof.
  split.
  - intros thr1 thr2.
    rewrite !(findMatches_unfold ext _ _ _ (Int 1) _ _ eq_refl).
    rewrite (findMatches_loop_single_thr _ _ _ thr1 thr2). reflexivity.
  - intros Hm thr log table Hrun.
    destruct (findMatches_result _ _ _ _ _ _ _ _ Hrun) as (_ & listHit & Hloop & ->).
    pose proof (findMatches_loop_single_count _ _ _ _ _ _ Hm _ _ _ _ Hloop) as Hlen.
    cbn [length Nat.add] in Hlen. rewrite <- Hlen.
    destruct listHit; reflexivity.
Qed.

(** X13: the checks on the arguments come before any work on a template.
    [matchTemplates] raises [ValueError] for a [maxOverlap] outside [0,1];
    for a valid one, and in [findMatches], an integer [N_object] below 1
    raises [ValueError] and a finite non-integer one [TypeError].  In each
    case the similarity function has not been called. *)
Theorem argument_checks_precede_calls (listTemplates : list (String.string * Image))
    (image : Image) (method : Z) (score_threshold maxOverlap : Q)
    (searchBox : option (Z * Z * Z * Z)) :
  (forall N_object, (maxOverlap < 0 \/ 1 < maxOverlap)%Q ->
     matchTemplates ext listTemplates image method N_object score_threshold maxOverlap
                    searchBox = ([], Raise ValueError)) /\
  (forall n, n < 1 ->
     findMatches ext listTemplates image method (Int n) score_threshold searchBox
       = ([], Raise ValueError) /\
     ((0 <= maxOverlap <= 1)%Q ->
      matchTemplates ext listTemplates image method (Int n) score_threshold maxOverlap
                     searchBox = ([], Raise ValueError))) /\
  (forall q,
     findMatches ext listTemplates image method (Float q) score_threshold searchBox
       = ([], Raise TypeError) /\
     ((0 <= maxOverlap <= 1)%Q ->
      matchTemplates ext listTemplates image method (Float q) score_threshold maxOverlap
                     searchBox = ([], Raise TypeError))).
Proof.
  assert (Hvalid : (0 <= maxOverlap <= 1)%Q ->
                   Qgtb 0 maxOverlap || Qgtb maxOverlap 1 = false).
  { intros [H0 H1]. unfold Qgtb. apply orb_false_iff.
    split; apply negb_false_iff; apply Qle_bool_iff; assumption. }
  split; [|split].
  - intros N_object H. unfold matchTemplates.
    replace (Qgtb 0 maxOverlap || Qgtb maxOverlap 1) with true; [reflexivity|].
    symmetry. apply orb_true_iff. unfold Qgtb.
    destruct H as [H|H]; [left|right]; apply negb_true_iff, not_true_iff_false;
      intros Hle; apply Qle_bool_iff in Hle; apply (Qlt_not_le _ _ H Hle).
  - intros n Hn.
    assert (Hc : check_N_object (Int n) = Raise ValueError).
    { cbn [check_N_object]. replace (n <? 1) with true by (symmetry; apply Z.ltb_lt; exact Hn).
      reflexivity. }
    split; [apply findMatches_checks_first; exact Hc|].
    intros Hmo. unfold matchTemplates. rewrite (Hvalid Hmo).
    rewrite (findMatches_checks_first ext _ _ _ _ _ _ _ Hc). reflexivity.
  - intros q. split; [reflexivity|].
    intros Hmo. unfold matchTemplates. rewrite (Hvalid Hmo). reflexivity.
Qed.

End TemplateLoop.

(** ** The whole pipeline *)

Section WholePipeline.

Variable ext : External.
Hypothesis argsort_ok : argsort_spec (argsort ext).

Lemma NMS_on_hits (rows : list Hit) (asc : bool) (N : number) (mo : Q) :
  rows <> [] ->
  exists h tl',
    NMS (argsort ext) (Array2D rows) None asc N mo = Ok (Array1D (bbox h :: tl')) /\
    forall b, In b (bbox h :: tl') -> exists d, In d rows /\ bbox d = b.
Proof.
  intros Hne.
  destruct (NMS_stages (argsort ext) argsort_ok rows None asc N mo)
    as (sorted & Hperm & _ & Hrun).
  assert (Hin : forall d, In d sorted -> In d rows).
  { intros d Hd. apply (Permutation_in _ Hperm) in Hd. apply filter_In in Hd. tauto. }
  destruct sorted as [|h sorted].
  - exfalso. apply Permutation_nil in Hperm.
    destruct rows as [|d rows]; [contradiction|].
    cbn [filter passes] in Hperm. discriminate Hperm.
  - cbn [firstn skipn map] in Hrun.
    destruct (NMS_loop_facts N mo (bbox h) (map bbox sorted) None)
      as (tl' & Hloop & Hsub & _).
    rewrite Hloop in Hrun. cbn [rbind] in Hrun.
    exists h, tl'. split; [exact Hrun|].
    intros b Hb.
    assert (Hb' : In b (map bbox (h :: sorted))).
    { cbn [map]. destruct Hb as [<-|Hb]; [left; reflexivity|right].
      apply (subsequence_incl _ _ Hsub). exact Hb. }
    apply in_map_iff in Hb'. destruct Hb' as (d & <- & Hd).
    exists d. split; [apply Hin; exact Hd|reflexivity].
Qed.

Lemma matchTemplates_Ok (listTemplates : list (String.string * Image)) (image : Image)
    (method : Z) (N : number) (thr mo : Q) (searchBox : option (Z * Z * Z * Z))
    (log : list event) (arr : ndarray) :
  matchTemplates ext listTemplates image method N thr mo searchBox = (log, Ok arr) ->
  exists tableHit asc,
    findMatches ext listTemplates image method N thr searchBox = (log, Ok tableHit) /\
    NMS (argsort ext) tableHit None asc N mo = Ok arr.
Proof.
  unfold matchTemplates. intros Hrun.
  destruct (Qgtb 0 mo || Qgtb mo 1); [discriminate Hrun|].
  destruct (findMatches ext listTemplates image method N thr searchBox)
    as [log1 [tableHit|e]]; [|rewrite mbind_Raise in Hrun; discriminate Hrun].
  rewrite mbind_Ok in Hrun. exists tableHit.
  destruct (method =? 1); [exists true|destruct (in_3_5 method); [exists false|]];
    cbn [mlift mraise fst snd] in Hrun; try rewrite app_nil_r in Hrun;
    try (injection Hrun as <- <-; split; reflexivity).
  discriminate Hrun.
Qed.

(** X14: a successful [matchTemplates] never returns an empty result: it
    returns a one-axis array of at least one box, and every box in it has
    the width and height of one of the templates. *)
Theorem matchTemplates_result (listTemplates : list (String.string * Image))
    (image : Image) (method : Z) (N_object : number) (score_threshold maxOverlap : Q)
    (searchBox : option (Z * Z * Z * Z)) (log : list event) (arr : ndarray) :
  matchTemplates ext listTemplates image method N_object score_threshold maxOverlap
                 searchBox = (log, Ok arr) ->
  exists b out,
    arr = Array1D (b :: out) /\
    forall box, In box (b :: out) ->
      exists entry, In entry listTemplates /\ box_of_template entry box.
Proof.
  intros Hrun.
  destruct (matchTemplates_Ok _ _ _ _ _ _ _ _ _ Hrun) as (tableHit & asc & Hf & Hnms).
  destruct (findMatches_result ext _ _ _ _ _ _ _ _ Hf) as (_ & listHit & Hloop & ->).
  pose proof (findMatches_loop_hits ext listTemplates listTemplates _ _ _ _ _ _
                (incl_refl _) None [] log listHit (Forall_nil _) Hloop) as HF.
  destruct listHit as [|h0 listHit].
  - cbn [np_asarray] in Hnms. destruct asc; discriminate Hnms.
  - cbn [np_asarray] in Hnms.
    destruct (NMS_on_hits (h0 :: listHit) asc N_object maxOverlap) as (h & tl' & HN & Hb);
      [discriminate|].
    rewrite HN in Hnms. injection Hnms as <-.
    exists (bbox h), tl'. split; [reflexivity|].
    intros box Hbox. destruct (Hb box Hbox) as (d & Hd & <-).
    rewrite Forall_forall in HF. destruct (HF d Hd) as (entry & He & _ & Hshape).
    exists entry. split; [exact He|]. exact Hshape.
Qed.

End WholePipeline.

Lemma matchTemplates_result_witness :
  exists b out,
    Array1D [(0, 0, 3, 3)] = Array1D (b :: out) /\
    forall box, In box (b :: out) ->
      exists entry, In entry [("t", blank 3 3)] /\ box_of_template entry box.
Proof.
  apply (matchTemplates_result sample_ext insertion_argsort_spec [("t", blank 3 3)]
           (blank 5 5) 5 Inf (1 # 2) (1 # 4) None
           [Call_matchTemplate (blank 3 3) (blank 5 5) 5]).
  vm_compute. reflexivity.
Defined.

Section NoHit.

Variable ext : External.

(** X15: when [findMatches] finds no hit (no peak for any template, or no
    template), [matchTemplates] with a valid [maxOverlap] and a method of 1,
    3 or 5 returns no empty result: it raises [IndexError]. *)
Theorem matchTemplates_no_hit_raises (listTemplates : list (String.string * Image))
    (image : Image) (method : Z) (N_object : number) (score_threshold maxOverlap : Q)
    (searchBox : option (Z * Z * Z * Z)) (log : list event) :
  (0 <= maxOverlap <= 1)%Q ->
  method = 1 \/ method = 3 \/ method = 5 ->
  findMatches ext listTemplates image method N_object score_threshold searchBox
    = (log, Ok (np_asarray [])) ->
  matchTemplates ext listTemplates image method N_object score_threshold maxOverlap
                 searchBox = (log, Raise IndexError).
Proof.
  intros [H0 H1] Hm Hf. unfold matchTemplates.
  replace (Qgtb 0 maxOverlap || Qgtb maxOverlap 1) with false.
  - rewrite Hf, mbind_Ok.
    destruct Hm as [H|[H|H]]; subst method; cbn; rewrite app_nil_r; reflexivity.
  - symmetry. unfold Qgtb. apply orb_false_iff.
    split; apply negb_false_iff; apply Qle_bool_iff; assumption.
Qed.

End NoHit.

Lemma matchTemplates_no_hit_raises_witness :
  matchTemplates sample_ext [("t", blank 1 5)] (blank 1 9) 5 Inf (1 # 2) (1 # 4) None
  = ([Call_matchTemplate (blank 1 5) (blank 1 9) 5], Raise IndexError).
Proof.
  apply (matchTemplates_no_hit_raises sample_ext [("t", blank 1 5)] (blank 1 9) 5 Inf
           (1 # 2) (1 # 4) None).
  - split; discriminate.
  - right. right. reflexivity.
  - vm_compute. reflexivity.
Defined.

(** ** Degenerate maps, crops and offsets *)

Lemma Qle_bool_opp (a b : Q) : Qle_bool (- a) (- b) = Qle_bool b a.
Proof.
  destruct (Qle_bool b a) eqn:E.
  - apply Qle_bool_iff. apply Qopp_le_compat. apply Qle_bool_iff. exact E.
  - apply not_true_iff_false. intros H. apply not_true_iff_false in E. apply E.
    apply Qle_bool_iff. apply Qle_bool_iff in H. apply Qopp_le_compat in H.
    rewrite !Qopp_involutive in H. exact H.
Qed.

(** X16: on a map with a single entry the peak finders do not consult the
    external ones: [_findLocalMax_] reports the entry exactly when its value
    is at least the threshold, and [_findLocalMin_], which negates both the
    map and the threshold, exactly when it is at most the threshold. *)
Theorem single_entry_map_peaks (ext : External) (v thr : Q) :
  _findLocalMax_ ext [[v]] thr = (if Qle_bool thr v then [(0, 0)] else []) /\
  _findLocalMin_ ext [[v]] thr = (if Qle_bool v thr then [(0, 0)] else []).
Proof.
  split; [reflexivity|].
  unfold _findLocalMin_, _findLocalMax_. cbn [map_neg map map_shape length Nat.eqb andb hd].
  rewrite Qle_bool_opp. reflexivity.
Qed.

Lemma py_slice_length {A : Type} (start stop : Z) (l : list A) :
  0 <= start -> 0 <= stop ->
  Z.of_nat (length (py_slice start stop l)) =
  Z.max 0 (Z.min stop (Z.of_nat (length l)) - Z.min start (Z.of_nat (length l))).
Proof.
  intros Hs He. unfold py_slice, clip_index.
  replace (start <? 0) with false by (symmetry; apply Z.ltb_ge; exact Hs).
  replace (stop <? 0) with false by (symmetry; apply Z.ltb_ge; exact He).
  rewrite length_firstn, length_skipn. lia.
Qed.

(** X17: a search box that reaches outside the image is clipped, not
    refused.  For a box with non-negative corner and size, the crop has
    min(y+h, H) - min(y, H) rows, H being the height of the image, and its
    rows are at most as wide as the box. *)
Theorem search_image_clipped (image : Image) (x y w h : Z) :
  0 <= x -> 0 <= y -> 0 <= w -> 0 <= h ->
  let H := fst (shape_2 image) in
  fst (shape_2 (search_image image (Some (x, y, w, h)))) = Z.min (y + h) H - Z.min y H /\
  0 <= snd (shape_2 (search_image image (Some (x, y, w, h)))) <= w.
Proof.
  intros Hx Hy Hw Hh. cbn [search_image crop shape_2 pixels fst snd img_dtype].
  split.
  - rewrite length_map, py_slice_length by lia. lia.
  - destruct (py_slice y (y + h) (pixels image)) as [|row rows]; cbn [map]; [lia|].
    rewrite py_slice_length by lia. lia.
Qed.

Lemma search_image_clipped_witness :
  fst (shape_2 (search_image (blank 5 5) (Some (3, 4, 10, 10)))) = Z.min (4 + 10) 5 - Z.min 4 5 /\
  0 <= snd (shape_2 (search_image (blank 5 5) (Some (3, 4, 10, 10)))) <= 10.
Proof.
  apply (search_image_clipped (blank 5 5) 3 4 10 10); lia.
Defined.

Section Offsets.

Variable ext : External.

Lemma append_hits_shift (name : String.string) (corrMap : ScoreMap)
    (xOffset yOffset width height : Z) (peaks : list (Z * Z)) :
  forall listHit,
    append_hits name corrMap xOffset yOffset width height peaks
                (map (shift_hit xOffset yOffset) listHit)
    = result_map (map (shift_hit xOffset yOffset))
        (append_hits name corrMap 0 0 width height peaks listHit).
Proof.
  induction peaks as [|peak peaks IH]; intros listHit; cbn [append_hits]; [reflexivity|].
  destruct (map_at corrMap peak) as [c|e]; cbn [rbind]; [|reflexivity].
  rewrite <- IH. rewrite map_app. cbn [map]. unfold shift_hit at 3. cbn [bbox templateName coeff].
  rewrite !Z.add_0_r. reflexivity.
Qed.

Lemma findMatches_loop_shift (listTemplates : list (String.string * Image)) (image : Image)
    (method : Z) (N : number) (thr : Q) (xOffset yOffset : Z) :
  forall (Peaks : option (list (Z * Z))) (listHit : list Hit),
    findMatches_loop ext listTemplates image method N thr xOffset yOffset Peaks
                     (map (shift_hit xOffset yOffset) listHit)
    = (fst (findMatches_loop ext listTemplates image method N thr 0 0 Peaks listHit),
       result_map (map (shift_hit xOffset yOffset))
         (snd (findMatches_loop ext listTemplates image method N thr 0 0 Peaks listHit))).
Proof.
  induction listTemplates as [|[name template] listTemplates IH]; intros Peaks listHit.
  - reflexivity.
  - rewrite !findMatches_loop_step.
    destruct (dtype_eqb (img_dtype template) float64 || dtype_eqb (img_dtype image) float64);
      [reflexivity|].
    cbv zeta.
    destruct (cv2_matchTemplate ext _ _ method) as [corrMap|e]; [|reflexivity].
    destruct (find_Peaks ext corrMap method N thr Peaks) as [peaks|]; [|reflexivity].
    rewrite append_hits_shift.
    destruct (append_hits name corrMap 0 0 _ _ peaks listHit) as [listHit'|e];
      cbn [result_map]; [|reflexivity].
    rewrite IH. reflexivity.
Qed.

(** X18: searching with a search box is searching the crop and moving every
    hit by the corner of the box: the calls made are the same, and the table
    returned is the table of the search in the crop with each box shifted by
    (xOffset, yOffset). *)
Theorem findMatches_searchBox_shifts (listTemplates : list (String.string * Image))
    (image : Image) (method : Z) (N_object : number) (score_threshold : Q)
    (xOffset yOffset searchWidth searchHeight : Z) :
  let box := Some (xOffset, yOffset, searchWidth, searchHeight) in
  let inner := findMatches ext listTemplates (search_image image box) method N_object
                           score_threshold None in
  findMatches ext listTemplates image method N_object score_threshold box
  = (fst inner, result_map (shift_table xOffset yOffset) (snd inner)).
Proof.
  cbv zeta.
  destruct (check_N_object N_object) as [[]|e] eqn:Hc.
  - rewrite !(findMatches_unfold ext _ _ _ _ _ _ Hc).
    pose proof (findMatches_loop_shift listTemplates
                  (search_image image (Some (xOffset, yOffset, searchWidth, searchHeight)))
                  method N_object score_threshold xOffset yOffset None []) as Hs.
    cbn [search_image search_offset fst snd map] in Hs |- *. rewrite Hs.
    destruct (findMatches_loop ext listTemplates _ method N_object score_threshold 0 0 None [])
      as [log [listHit|e]]; cbn [fst snd result_map].
    + rewrite !mbind_Ok. cbn [mret fst snd result_map]. f_equal. f_equal.
      destruct listHit; reflexivity.
    + reflexivity.
  - rewrite !(findMatches_checks_first ext _ _ _ _ _ _ e Hc). reflexivity.
Qed.

End Offsets.

(** ** Selection: the count and the overlap bound *)

Section Selection.

Variable argsort : list Q -> list nat.
Hypothesis argsort_ok : argsort_spec argsort.

(** X19: with [maxOverlap] at least 1 and an unbounded [N_object] nothing
    is suppressed: the box of every row that passes the threshold is
    returned. *)
Theorem NMS_no_suppression (rows : list Hit) (scoreThreshold : option Q)
    (sortAscending : bool) (maxOverlap : Q) :
  (1 <= maxOverlap)%Q ->
  exists out,
    NMS argsort (Array2D rows) scoreThreshold sortAscending Inf maxOverlap
      = Ok (Array1D out) /\
    forall d, In d rows -> passes scoreThreshold sortAscending d = true ->
              In (bbox d) out.
Proof.
  intros Hmo.
  destruct (NMS_stages argsort argsort_ok rows scoreThreshold sortAscending Inf maxOverlap)
    as (sorted & Hperm & _ & Hrun).
  destruct sorted as [|h sorted].
  - exists []. cbn [firstn skipn map] in Hrun. rewrite NMS_loop_equation_1 in Hrun.
    split; [exact Hrun|]. intros d Hd Hp. exfalso.
    apply Permutation_nil in Hperm.
    assert (Hin : In d (filter (passes scoreThreshold sortAscending) rows))
      by (apply filter_In; split; assumption).
    rewrite Hperm in Hin. exact Hin.
  - cbn [firstn skipn map] in Hrun.
    destruct (NMS_loop_facts Inf maxOverlap (bbox h) (map bbox sorted) None)
      as (tl' & Hloop & _ & _ & Hend).
    rewrite Hloop in Hrun. cbn [rbind] in Hrun.
    exists (bbox h :: tl'). split; [exact Hrun|].
    destruct Hend as [Hcov|Hstop]; [|discriminate Hstop].
    intros d Hd Hp.
    assert (Hin : In d (h :: sorted)).
    { apply (Permutation_in _ (Permutation_sym Hperm)). apply filter_In. tauto. }
    destruct Hin as [<-|Hin]; [left; reflexivity|].
    destruct (Hcov (bbox d) (in_map bbox _ _ Hin)) as [Hb|(o & _ & Hlt)]; [exact Hb|].
    exfalso. destruct (computeIoU_range (bbox d) o) as [_ Hle].
    apply (Qlt_not_le _ _ Hlt). apply Qle_trans with 1%Q; assumption.
Qed.

(** X20: with an integer [N_object], [NMS] returns fewer boxes than
    [N_object] only when nothing else fits: either it returns at least
    [N_object] boxes, or the box of every row that passes the threshold is
    returned or overlaps a returned box by more than [maxOverlap]. *)
Theorem NMS_fewer_only_if_maximal (rows : list Hit) (scoreThreshold : option Q)
    (sortAscending : bool) (n : Z) (maxOverlap : Q) :
  exists out,
    NMS argsort (Array2D rows) scoreThreshold sortAscending (Int n) maxOverlap
      = Ok (Array1D out) /\
    (n <= Z.of_nat (length out) \/
     forall d, In d rows -> passes scoreThreshold sortAscending d = true ->
       In (bbox d) out \/
       exists o, In o out /\ (maxOverlap < computeIoU (bbox d) o)%Q).
Proof.
  destruct (NMS_stages argsort argsort_ok rows scoreThreshold sortAscending (Int n) maxOverlap)
    as (sorted & Hperm & _ & Hrun).
  destruct sorted as [|h sorted].
  - exists []. cbn [firstn skipn map] in Hrun. rewrite NMS_loop_equation_1 in Hrun.
    split; [exact Hrun|]. right. intros d Hd Hp. exfalso.
    apply Permutation_nil in Hperm.
    assert (Hin : In d (filter (passes scoreThreshold sortAscending) rows))
      by (apply filter_In; split; assumption).
    rewrite Hperm in Hin. exact Hin.
  - cbn [firstn skipn map] in Hrun.
    destruct (NMS_loop_facts (Int n) maxOverlap (bbox h) (map bbox sorted) None)
      as (tl' & Hloop & _ & _ & Hend).
    rewrite Hloop in Hrun. cbn [rbind] in Hrun.
    exists (bbox h :: tl'). split; [exact Hrun|].
    destruct Hend as [Hcov|Hstop].
    + right. intros d Hd Hp.
      assert (Hin : In d (h :: sorted)).
      { apply (Permutation_in _ (Permutation_sym Hperm)). apply filter_In. tauto. }
      destruct Hin as [<-|Hin]; [left; left; reflexivity|].
      apply Hcov. apply in_map. exact Hin.
    + left. cbn [Z_lt_number] in Hstop. apply Z.ltb_ge in Hstop. exact Hstop.
Qed.

End Selection.

Lemma NMS_no_suppression_witness :
  exists out,
    NMS insertion_argsort (Array2D [hit_a; hit_a; hit_b]) None false Inf 1
      = Ok (Array1D out) /\
    forall d, In d [hit_a; hit_a; hit_b] -> passes None false d = true ->
              In (bbox d) out.
Proof.
  apply (NMS_no_suppression insertion_argsort insertion_argsort_spec
           [hit_a; hit_a; hit_b] None false 1).
  discriminate.
Defined.

Lemma NMS_fewer_only_if_maximal_witness :
  exists out,
    NMS insertion_argsort (Array2D [hit_a; hit_a; hit_b]) None false (Int 3) (1 # 4)
      = Ok (Array1D out) /\
    (3 <= Z.of_nat (length out) \/
     forall d, In d [hit_a; hit_a; hit_b] -> passes None false d = true ->
       In (bbox d) out \/
       exists o, In o out /\ (1 # 4 < computeIoU (bbox d) o)%Q).
Proof.
  exact (NMS_fewer_only_if_maximal insertion_argsort insertion_argsort_spec
           [hit_a; hit_a; hit_b] None false 3 (1 # 4)).
Defined.

Lemma findMatches_calls_in_order_witness :
  exists k,
    (k <= length [("t", blank 3 3); ("u", blank 1 9)])%nat /\
    [Call_matchTemplate (blank 3 3) (blank 5 5) 5; Call_matchTemplate (blank 1 9) (blank 5 5) 5]
      = map (call_for (search_image (blank 5 5) None) 5)
            (firstn k [("t", blank 3 3); ("u", blank 1 9)]) /\
    (forall table, @Raise ndarray cv2_error = Ok table ->
       [Call_matchTemplate (blank 3 3) (blank 5 5) 5; Call_matchTemplate (blank 1 9) (blank 5 5) 5]
         = map (call_for (search_image (blank 5 5) None) 5)
               [("t", blank 3 3); ("u", blank 1 9)]).
Proof.
  apply (findMatches_calls_in_order sample_ext [("t", blank 3 3); ("u", blank 1 9)]
           (blank 5 5) 5 Inf (1 # 2) None).
  vm_compute. reflexivity.
Defined.

Lemma findMatches_hits_of_templates_witness :
  [mkHit "t" (0, 0, 3, 3) 1] <> [] /\
  forall h, In h [mkHit "t" (0, 0, 3, 3) 1] ->
    exists entry, In entry [("t", blank 3 3)] /\ hit_of_template entry h.
Proof.
  apply (findMatches_hits_of_templates sample_ext [("t", blank 3 3)] (blank 5 5) 5 Inf
           (1 # 2) None [Call_matchTemplate (blank 3 3) (blank 5 5) 5]
           (Array2D [mkHit "t" (0, 0, 3, 3) 1])).
  vm_compute. reflexivity.
Defined.

(** ** Rounding at work *)

(** The exact quotient 4/28 is above the double nearest to 1/7, the rounded
    one is not: with that double as [maxOverlap], [NMS] keeps the box
    (2,2,4,4) next to (0,0,4,4). *)
Lemma NMS_keeps_overlap_at_threshold :
  (truediv 1 7 < 1 # 7)%Q /\
  NMS insertion_argsort
      (Array2D [mkHit "a" (0, 0, 4, 4) (9 # 10); mkHit "b" (2, 2, 4, 4) (8 # 10);
                mkHit "c" (20, 20, 4, 4) (7 # 10)])
      None false Inf (truediv 1 7)
  = Ok (Array1D [(0, 0, 4, 4); (2, 2, 4, 4); (20, 20, 4, 4)]).
Proof.
  split; vm_compute; reflexivity.
Qed.

(** Beyond [2 ^ 53] pixels a partial overlap can round to 1, and a shared
    pixel to 0. *)
Lemma truediv_rounds_to_bounds :
  (truediv (2 ^ 60 - 1) (2 ^ 60 + 1) == 1)%Q /\
  (truediv 1 (2 ^ 1080 + 1) == 0)%Q.
Proof.
  split; vm_compute; reflexivity.
Qed.
